(** * Absurdle solver: the pattern matcher and the partition step

    A shallow embedding of the three functions of [solver.ipynb],
    [append_sequence_no], [match_pattern_vec] / [match_pattern] and
    [reduce_targets_by_test], together with the TensorFlow operations they
    are written with, and the properties of the design document that
    concern them.

    Tensors of rank one are lists, the [int32] entries are in [Z] (no
    value of the notebook leaves the range 0..242 or the padding -1, so
    no wrap-around arises), indices and counts are in [nat].  An operation
    that raises is [None]. *)

From Stdlib Require Import List ZArith Lia Bool String Ascii Arith Permutation.
Import ListNotations.
Open Scope Z_scope.

(** ** TensorFlow operations *)

Module Tf.

(** The kernel an operation runs on.  Only [gather_nd] depends on it: the
    CPU kernel raises on an index outside the parameter tensor, the GPU
    kernel stores 0 for it.  The outputs recorded in the notebook (a run
    over the whole answer list with the guess "aahed", which shares
    placed letters with many answers) are those of the second
    behaviour. *)
Inductive Device : Type := CPU | GPU.

Definition bind {A B : Type} (m : option A) (f : A -> option B) : option B :=
  match m with
  | Some a => f a
  | None => None
  end.

Notation "x <- m ;; k" := (bind m (fun x => k))
  (at level 61, m at next level, right associativity).

(** [tf.map_fn]: the function applied to the elements in order; the whole
    call raises as soon as one application does. *)
Fixpoint map_fn {A B : Type} (fn : A -> option B) (elems : list A)
  : option (list B) :=
  match elems with
  | [] => Some []
  | x :: rest =>
      y <- fn x ;;
      ys <- map_fn fn rest ;;
      Some (y :: ys)
  end.

(** [tf.range n] *)
Definition range (n : nat) : list Z := map Z.of_nat (seq 0 n).

(** [tf.zeros n] *)
Definition zeros (n : nat) : list Z := repeat 0 n.

(** [tf.one_hot x depth]: an index outside [0, depth) gives the zero
    vector. *)
Definition one_hot (x : Z) (depth : nat) : list Z :=
  map (fun k => if k =? x then 1 else 0) (range depth).

(** Element-wise binary operations on tensors of the same shape. *)
Fixpoint zip_with {A B C : Type} (f : A -> B -> C) (a : list A) (b : list B)
  : list C :=
  match a, b with
  | x :: a', y :: b' => f x y :: zip_with f a' b'
  | _, _ => []
  end.

(** [tf.scan fn elems initializer]: the accumulator after each element. *)
Fixpoint scan {A B : Type} (fn : A -> B -> A) (elems : list B) (a : A)
  : list A :=
  match elems with
  | [] => []
  | x :: rest => let a' := fn a x in a' :: scan fn rest a'
  end.

(** One lookup of [tf.gather_nd] in a matrix. *)
Definition gather_one (dev : Device) (params : list (list Z)) (ix : Z * Z)
  : option Z :=
  let '(i, j) := ix in
  let inside :=
    if (0 <=? i) && (0 <=? j) then
      row <- nth_error params (Z.to_nat i) ;;
      nth_error row (Z.to_nat j)
    else None in
  match inside, dev with
  | Some v, _ => Some v
  | None, GPU => Some 0
  | None, CPU => None
  end.

Definition gather_nd (dev : Device) (params : list (list Z))
  (indices : list (Z * Z)) : option (list Z) :=
  map_fn (gather_one dev params) indices.

(** [tf.strings.unicode_decode s 'UTF-8'] on an ASCII string: one code
    point per byte. *)
Definition unicode_decode (s : string) : list Z :=
  map (fun c => Z.of_N (N_of_ascii c)) (list_ascii_of_string s).

(** [tf.reshape t (n,)] raises unless [t] has [n] entries. *)
Definition reshape (t : list Z) (n : nat) : option (list Z) :=
  if Nat.eqb (List.length t) n then Some t else None.

(** [tf.transpose (tf.stack (a, b))] on two vectors: the rows
    [(a[i], b[i])]; [tf.stack] raises unless the two have one shape. *)
Definition stack_transpose (a b : list Z) : option (list (Z * Z)) :=
  if Nat.eqb (List.length a) (List.length b) then Some (combine a b)
  else None.

(** [tf.reduce_sum] *)
Definition reduce_sum (t : list Z) : Z := fold_right Z.add 0 t.

(** [tf.unique_with_counts x]: one pass over [x]; a value not met before
    is appended to [y] and gets the next index. *)
Fixpoint find_index (v : Z) (y : list Z) : option nat :=
  match y with
  | [] => None
  | u :: y' => if v =? u then Some O else option_map S (find_index v y')
  end.

Definition unique_step (st : list Z * list nat) (v : Z) : list Z * list nat :=
  let '(y, idx) := st in
  match find_index v y with
  | Some j => (y, idx ++ [j])
  | None => (y ++ [v], idx ++ [List.length y])
  end.

Definition unique_with_counts (x : list Z) : list Z * list nat * list nat :=
  let '(y, idx) := fold_left unique_step x ([], []) in
  (y, idx, map (fun j => count_occ Nat.eq_dec idx j) (seq 0 (List.length y))).

(** [tf.argmax]: the smallest index among those of the largest value;
    raises on an empty tensor. *)
Fixpoint argmax_from (best_i : nat) (best : nat) (i : nat) (l : list nat)
  : nat :=
  match l with
  | [] => best_i
  | c :: l' =>
      if Nat.ltb best c then argmax_from i c (S i) l'
      else argmax_from best_i best (S i) l'
  end.

Definition argmax (l : list nat) : option nat :=
  match l with
  | [] => None
  | c :: l' => Some (argmax_from O c 1%nat l')
  end.

(** [t[mask]]: the entries of [t] at which [mask] holds, in order. *)
Fixpoint boolean_mask {A : Type} (t : list A) (mask : list bool) : list A :=
  match t, mask with
  | x :: t', b :: mask' =>
      if b then x :: boolean_mask t' mask' else boolean_mask t' mask'
  | _, _ => []
  end.

End Tf.

Import Tf.

(** ** The notebook *)

Definition word_length : nat := 5.

(** [append_sequence_no]: each letter paired with its sequence number,
    the number of its occurrences up to and including its own position
    (the running one-hot sum, read at row [i], column [word[i]]).  The
    index pairs are stacked from [tf.range(word_length)] and the word,
    so a word of another length raises. *)
Definition append_sequence_no (dev : Device) (word : list Z)
  : option (list (Z * Z)) :=
  let counter :=
    scan (fun a x => zip_with Z.add a (one_hot x 26)) word (zeros 26) in
  indices <- stack_transpose (range word_length) word ;;
  sequence_no <- gather_nd dev counter indices ;;
  stack_transpose word sequence_no.

Definition pair_eqb (t u : Z * Z) : bool :=
  (fst t =? fst u) && (snd t =? snd u).

(** [match_pattern_vec] *)
Definition match_pattern_vec (dev : Device) (test target : string)
  : option (list Z) :=
  test <- reshape (map (fun c => c - 97) (unicode_decode test)) word_length ;;
  target <- reshape (map (fun c => c - 97) (unicode_decode target))
              word_length ;;
  let green_mask := zip_with (fun a b => if a =? b then 1 else 0) test target in
  let test_masked :=
    zip_with (fun g t => if negb (g =? 0) then -1 else t) green_mask test in
  test_sequenced <- append_sequence_no dev test_masked ;;
  target_sequenced <- append_sequence_no dev target ;;
  let yellow_mask :=
    map (fun t => if existsb (pair_eqb t) target_sequenced then 1 else 0)
        test_sequenced in
  Some (zip_with (fun g y => 2 * g + 1 * y) green_mask yellow_mask).

(** [match_pattern]: position [i] weighs [3 ^ i]. *)
Definition match_pattern (dev : Device) (test target : string) : option Z :=
  vec <- match_pattern_vec dev test target ;;
  Some (reduce_sum
          (zip_with Z.mul vec (map (fun i => 3 ^ i) (range word_length)))).

(** [reduce_targets_by_test] *)
Definition reduce_targets_by_test (dev : Device) (targets : list string)
  (test : string) : option (list string) :=
  patterns <- map_fn (fun target => match_pattern dev test target) targets ;;
  let '(unique_patterns, pattern_indices, pattern_counts) :=
    unique_with_counts patterns in
  idx_max <- argmax pattern_counts ;;
  Some (boolean_mask targets
          (map (fun i => Nat.eqb i idx_max) pattern_indices)).

(** ** Words and markings *)

Definition lowercase (c : Z) : bool := (97 <=? c) && (c <=? 122).

(** A word of the vocabulary: [word_length] lowercase letters. *)
Definition is_word (w : string) : bool :=
  Nat.eqb (List.length (unicode_decode w)) word_length
  && forallb lowercase (unicode_decode w).

Definition valid_word (w : string) : Prop := is_word w = true.

(** The strings on which [unicode_decode] is the decoding of the code:
    every byte is below 128, hence one code point. *)
Definition is_ascii (w : string) : bool :=
  forallb (fun c => c <? 128) (unicode_decode w).

(** The letters of a word as the matcher sees them: code points offset
    by 97. *)
Definition letters (w : string) : list Z :=
  map (fun c => c - 97) (unicode_decode w).

(** Number of positions of [test] that hold letter [v] and are marked
    YELLOW or GREEN in [pattern]. *)
Definition marked (v : Z) (test : list Z) (pattern : list Z) : nat :=
  List.length
    (filter (fun tp => (fst tp =? v) && negb (snd tp =? 0))
            (combine test pattern)).

(** Number of occurrences of letter [v] in a word. *)
Definition occurrences (v : Z) (word : list Z) : nat :=
  count_occ Z.eq_dec word v.

(** Membership of a candidate in the group of pattern [p] for a guess. *)
Definition has_pattern (dev : Device) (test : string) (p : Z)
  (target : string) : bool :=
  match match_pattern dev test target with
  | Some q => q =? p
  | None => false
  end.

(** The group of pattern [p]: the candidates that score [p], in the
    order of the list. *)
Definition pattern_group (dev : Device) (test : string) (p : Z)
  (targets : list string) : list string :=
  filter (has_pattern dev test p) targets.

(** The body of [match_pattern_vec] once both words are decoded and the
    sequence numbers [s] (of the masked test word) and [s'] (of the
    target) are read. *)
Definition pattern_with (test target s s' : list Z) : list Z :=
  let green_mask := zip_with (fun a b => if a =? b then 1 else 0) test target in
  let test_masked :=
    zip_with (fun g t => if negb (g =? 0) then -1 else t) green_mask test in
  let yellow_mask :=
    map (fun t => if existsb (pair_eqb t) (combine target s') then 1 else 0)
        (combine test_masked s) in
  zip_with (fun g y => 2 * g + 1 * y) green_mask yellow_mask.

(** The weighted sum of [match_pattern]. *)
Definition encode (vec : list Z) : Z :=
  reduce_sum (zip_with Z.mul vec (map (fun i => 3 ^ i) (range word_length))).

(** What one pass of [unique_with_counts] over [x] has built: [y] lists
    the values of [x] once each, [idx] gives for every entry of [x] its
    place in [y], and [y] is in order of first appearance in [x]. *)
Definition unique_inv (x y : list Z) (idx : list nat) : Prop :=
  NoDup y
  /\ (forall v, In v y <-> In v x)
  /\ Forall2 (fun v j => nth_error y j = Some v) x idx
  /\ (forall j1 j2 u v,
        (j1 < j2)%nat -> nth_error y j1 = Some u -> nth_error y j2 = Some v ->
        exists i1 i2,
          find_index u x = Some i1 /\ find_index v x = Some i2
          /\ (i1 < i2)%nat).

(** Number of positions of a pattern that are not BLACK. *)
Definition non_black (pattern : list Z) : nat :=
  List.length (filter (fun x => negb (x =? 0)) pattern).

(** ** Reference notions for the sequence numbers and the markings *)

(** A value that is a column of the counter: a letter. *)
Definition in_alphabet (c : Z) : bool := (0 <=? c) && (c <? 26).

(** A row of the counter of [append_sequence_no] once the letters [pre]
    are summed: column [c] holds the number of occurrences of [c]. *)
Definition row_count (pre : list Z) : list Z :=
  map (fun c => Z.of_nat (count_occ Z.eq_dec pre (Z.of_nat c))) (seq 0 26).

(** The sequence number read for [x] when the letters [pre] precede it:
    one more than its occurrences in [pre]; a value outside the alphabet
    has no column, which the CPU kernel rejects and the GPU kernel reads
    as 0. *)
Definition sequence_no_after (dev : Device) (pre : list Z) (x : Z)
  : option Z :=
  if in_alphabet x then Some (Z.of_nat (S (count_occ Z.eq_dec pre x)))
  else match dev with
       | GPU => Some 0
       | CPU => None
       end.

Fixpoint sequence_numbers (dev : Device) (pre w : list Z)
  : option (list Z) :=
  match w with
  | [] => Some []
  | x :: w' =>
      n <- sequence_no_after dev pre x ;;
      ns <- sequence_numbers dev (x :: pre) w' ;;
      Some (n :: ns)
  end.

(** The same numbers on the GPU kernel, where no lookup raises. *)
Fixpoint sequenced (pre w : list Z) : list Z :=
  match w with
  | [] => []
  | x :: w' =>
      (if in_alphabet x then Z.of_nat (S (count_occ Z.eq_dec pre x)) else 0)
      :: sequenced (x :: pre) w'
  end.

(** The test word with its placed letters replaced by -1. *)
Definition masked (test target : list Z) : list Z :=
  zip_with (fun a b => if a =? b then -1 else a) test target.

(** The markings as one pass from left to right over the two words:
    [pre] holds the masked letters of the test word met so far, [whole]
    is the whole target.  A placed letter is GREEN; another letter is
    YELLOW as long as its rank among the unplaced letters of its kind
    does not exceed the occurrences of that letter in the whole target. *)
Fixpoint marks (pre test target whole : list Z) : list Z :=
  match test, target with
  | a :: test', b :: target' =>
      (if a =? b then 2
       else if Nat.leb (S (count_occ Z.eq_dec pre a))
                       (count_occ Z.eq_dec whole a)
            then 1 else 0)
      :: marks ((if a =? b then -1 else a) :: pre) test' target' whole
  | _, _ => []
  end.

(** The marking of position [i], stated on the two words alone. *)
Definition mark_at (test target : list Z) (i : nat) : Z :=
  match nth_error test i, nth_error target i with
  | Some a, Some b =>
      if a =? b then 2
      else if Nat.leb
                (count_occ Z.eq_dec (firstn (S i) (masked test target)) a)
                (count_occ Z.eq_dec target a)
           then 1 else 0
  | _, _ => 0
  end.

(** Number of positions of [test] that hold letter [v] and are marked
    YELLOW, respectively GREEN, in [pattern]. *)
Definition yellow_marked (v : Z) (test pattern : list Z) : nat :=
  List.length
    (filter (fun tp => (fst tp =? v) && (snd tp =? 1))
            (combine test pattern)).

Definition green_marked (v : Z) (test pattern : list Z) : nat :=
  List.length
    (filter (fun tp => (fst tp =? v) && (snd tp =? 2))
            (combine test pattern)).

(** Number of positions at which both words hold letter [v]. *)
Definition placed (v : Z) (test target : list Z) : nat :=
  List.length
    (filter (fun ab => (fst ab =? v) && (snd ab =? v))
            (combine test target)).

(** ** Facts on the tensor operations *)

Section MapFn.
Context {A B : Type} (fn : A -> option B).

Lemma map_fn_Forall2 (l : list A) (r : list B) :
  map_fn fn l = Some r <-> Forall2 (fun x y => fn x = Some y) l r.
Proof.
  revert r; induction l as [|x l IH]; intros r; simpl.
  - split.
    + intros [= <-]; constructor.
    + intros H; inversion H; reflexivity.
  - split.
    + destruct (fn x) as [y|] eqn:Hx; simpl; [|discriminate].
      destruct (map_fn fn l) as [ys|] eqn:Hl; simpl; [|discriminate].
      intros [= <-]; constructor; [assumption|].
      apply IH; reflexivity.
    + intros H; inversion H as [|? y ? ys Hx Hl]; subst.
      rewrite Hx; simpl.
      apply IH in Hl; rewrite Hl; reflexivity.
Qed.

Lemma map_fn_total (l : list A) :
  Forall (fun x => exists y, fn x = Some y) l ->
  exists r, map_fn fn l = Some r.
Proof.
  induction 1 as [|x l [y Hy] _ [r Hr]]; simpl.
  - eexists; reflexivity.
  - rewrite Hy, Hr; simpl; eexists; reflexivity.
Qed.

Lemma map_fn_length (l : list A) (r : list B) :
  map_fn fn l = Some r -> List.length r = List.length l.
Proof.
  rewrite map_fn_Forall2; intros H; symmetry.
  induction H; simpl; congruence.
Qed.
End MapFn.

Lemma gather_nd_GPU (params : list (list Z)) (indices : list (Z * Z)) :
  exists s, gather_nd GPU params indices = Some s
            /\ List.length s = List.length indices.
Proof.
  destruct (map_fn_total (gather_one GPU params) indices) as [s Hs].
  - apply Forall_forall; intros [i j] _; unfold gather_one.
    destruct (if (0 <=? i) && (0 <=? j)
              then row <- nth_error params (Z.to_nat i) ;;
                   nth_error row (Z.to_nat j)
              else None); eexists; reflexivity.
  - exists s; split; [exact Hs|].
    apply (map_fn_length _ _ _ Hs).
Qed.

Lemma range_length (n : nat) : List.length (range n) = n.
Proof. unfold range; rewrite length_map, length_seq; reflexivity. Qed.

(** On the GPU kernel [append_sequence_no] always returns, and the first
    column of its result is the word itself. *)
Lemma append_sequence_no_GPU (word : list Z) :
  List.length word = word_length ->
  exists s, append_sequence_no GPU word = Some (combine word s)
            /\ List.length s = word_length.
Proof.
  intros Hlen; unfold append_sequence_no, stack_transpose.
  rewrite range_length, Hlen, Nat.eqb_refl; cbn [bind].
  destruct (gather_nd_GPU
              (scan (fun a x => zip_with Z.add a (one_hot x 26)) word
                    (zeros 26))
              (combine (range word_length) word)) as [s [Hs Hl]].
  rewrite length_combine, range_length, Hlen, Nat.min_id in Hl.
  rewrite Hs; cbn [bind]; rewrite Hl, Nat.eqb_refl.
  exists s; split; [reflexivity | exact Hl].
Qed.

Lemma zip_with_length {A B C : Type} (f : A -> B -> C) (a : list A)
  (b : list B) :
  List.length (zip_with f a b) = Nat.min (List.length a) (List.length b).
Proof.
  revert b; induction a as [|x a IH]; intros [|y b]; simpl; auto.
Qed.

(** ** Words *)

Lemma word_letters (w : string) :
  valid_word w ->
  reshape (letters w) word_length = Some (letters w)
  /\ List.length (letters w) = word_length
  /\ Forall (fun c => 0 <= c <= 25) (letters w).
Proof.
  unfold valid_word, is_word, reshape, letters.
  rewrite andb_true_iff, forallb_forall; intros [Hlen Hlow].
  rewrite length_map, Hlen; repeat split.
  - apply Nat.eqb_eq in Hlen; exact Hlen.
  - apply Forall_forall; intros c Hc.
    apply in_map_iff in Hc; destruct Hc as [d [<- Hd]].
    apply Hlow in Hd; unfold lowercase in Hd.
    apply andb_true_iff in Hd; lia.
Qed.

(** ** The pattern matcher on the GPU kernel *)

Lemma match_pattern_vec_GPU (test target : string) :
  valid_word test -> valid_word target ->
  exists s s',
    List.length s = word_length /\ List.length s' = word_length
    /\ match_pattern_vec GPU test target
       = Some (pattern_with (letters test) (letters target) s s').
Proof.
  intros Htest Htarget.
  destruct (word_letters test Htest) as [Hr [Hl _]].
  destruct (word_letters target Htarget) as [Hr' [Hl' _]].
  unfold match_pattern_vec; fold (letters test); fold (letters target).
  rewrite Hr, Hr'; simpl.
  set (masked := zip_with (fun g t => if negb (g =? 0) then -1 else t)
                   (zip_with (fun a b => if a =? b then 1 else 0)
                      (letters test) (letters target)) (letters test)).
  destruct (append_sequence_no_GPU masked) as [s [Hs Hls]].
  { unfold masked; rewrite !zip_with_length, Hl, Hl'; reflexivity. }
  destruct (append_sequence_no_GPU (letters target) Hl') as [s' [Hs' Hls']].
  exists s, s'; rewrite Hs, Hs'; simpl; auto.
Qed.

(** The sequence numbers of "speed": the second 'e' is numbered 2. *)
Example append_sequence_no_speed :
  forall dev,
    append_sequence_no dev (letters "speed")
    = Some [(18, 1); (15, 1); (4, 1); (4, 2); (3, 1)].
Proof. intros []; reflexivity. Qed.

(** On the CPU kernel a placed letter, masked to -1, makes the lookup of
    its sequence number raise. *)
Remark placed_letter_raises_on_CPU :
  match_pattern_vec CPU "level" "lousy" = None.
Proof. reflexivity. Qed.

Lemma match_pattern_encode (dev : Device) (test target : string)
  (vec : list Z) :
  match_pattern_vec dev test target = Some vec ->
  match_pattern dev test target = Some (encode vec).
Proof. intros H; unfold match_pattern; rewrite H; reflexivity. Qed.

(** A masked (placed) letter of the test word never meets a sequenced
    letter of a target made of letters. *)
Lemma existsb_masked (x : Z) (target s' : list Z) :
  Forall (fun c => 0 <= c) target ->
  existsb (pair_eqb (-1, x)) (combine target s') = false.
Proof.
  intros H; revert s'; induction H as [|c target Hc _ IH]; intros [|y s'];
    cbn [existsb combine]; auto.
  rewrite IH, orb_false_r; unfold pair_eqb; cbn [fst snd].
  destruct (Z.eqb_spec (-1) c); [lia | reflexivity].
Qed.

Section Ternary.
Variable sequenced : list (Z * Z).
Hypothesis masked_absent :
  forall x, existsb (pair_eqb (-1, x)) sequenced = false.

Lemma marks_ternary (test target s : list Z) :
  Forall (fun x => x = 0 \/ x = 1 \/ x = 2)
    (zip_with (fun g y => 2 * g + 1 * y)
       (zip_with (fun a b => if a =? b then 1 else 0) test target)
       (map (fun t => if existsb (pair_eqb t) sequenced then 1 else 0)
          (combine
             (zip_with (fun g t => if negb (g =? 0) then -1 else t)
                (zip_with (fun a b => if a =? b then 1 else 0) test target)
                test)
             s))).
Proof.
  revert target s; induction test as [|a test IH]; intros [|b target] [|x s];
    cbn [zip_with combine map]; try constructor.
  - destruct (a =? b); cbn [Z.eqb negb].
    + rewrite masked_absent; lia.
    + destruct (existsb _ sequenced); lia.
  - apply IH.
Qed.
End Ternary.

Lemma pattern_with_ternary (test target s s' : list Z) :
  Forall (fun c => 0 <= c) target ->
  Forall (fun x => x = 0 \/ x = 1 \/ x = 2) (pattern_with test target s s').
Proof.
  intros Htarget; unfold pattern_with.
  apply marks_ternary; intros x; apply existsb_masked; exact Htarget.
Qed.

Lemma pattern_with_length (test target s s' : list Z) :
  List.length test = word_length -> List.length target = word_length ->
  List.length s = word_length ->
  List.length (pattern_with test target s s') = word_length.
Proof.
  intros H1 H2 H3; unfold pattern_with.
  rewrite !zip_with_length, length_map, length_combine, !zip_with_length.
  rewrite H1, H2, H3; reflexivity.
Qed.

Lemma encode_bounds (vec : list Z) :
  List.length vec = word_length ->
  Forall (fun x => x = 0 \/ x = 1 \/ x = 2) vec ->
  0 <= encode vec < 3 ^ Z.of_nat word_length.
Proof.
  intros Hlen Hvec.
  destruct vec as [|a [|b [|c [|d [|e [|]]]]]]; try discriminate Hlen.
  repeat match goal with
         | H : Forall _ (_ :: _) |- _ => inversion H; subst; clear H
         end.
  unfold encode; cbn; lia.
Qed.

Lemma letters_nonneg (w : string) :
  valid_word w -> Forall (fun c => 0 <= c) (letters w).
Proof.
  intros H; destruct (word_letters w H) as [_ [_ Hw]].
  eapply Forall_impl; [|exact Hw]; simpl; lia.
Qed.

(** A word scored against itself: every position is placed. *)
Lemma pattern_with_self (w s s' : list Z) :
  Forall (fun c => 0 <= c) w ->
  List.length w = word_length -> List.length s = word_length ->
  pattern_with w w s s' = [2; 2; 2; 2; 2].
Proof.
  intros Hw Hlen Hs; unfold pattern_with.
  assert (HT : forall x, existsb (pair_eqb (-1, x)) (combine w s') = false)
    by (intros x; apply existsb_masked; exact Hw).
  revert HT; generalize (combine w s'); intros T HT.
  destruct w as [|a [|b [|c [|d [|e [|]]]]]]; try discriminate Hlen.
  destruct s as [|s1 [|s2 [|s3 [|s4 [|s5 [|]]]]]]; try discriminate Hs.
  cbn [zip_with]; rewrite !Z.eqb_refl; cbn [Z.eqb negb zip_with combine map].
  rewrite !HT; reflexivity.
Qed.

(** ** [unique_with_counts] *)

Section Unique.
Local Open Scope nat_scope.

Lemma find_index_Some (v : Z) (y : list Z) (j : nat) :
  find_index v y = Some j -> nth_error y j = Some v.
Proof.
  revert j; induction y as [|u y IH]; intros j; cbn [find_index].
  - discriminate.
  - destruct (Z.eqb_spec v u) as [->|_].
    + intros [= <-]; reflexivity.
    + destruct (find_index v y) as [k|]; [|discriminate].
      intros [= <-]; apply IH; reflexivity.
Qed.

Lemma find_index_None (v : Z) (y : list Z) :
  find_index v y = None -> ~ In v y.
Proof.
  induction y as [|u y IH]; cbn [find_index]; [auto|].
  destruct (Z.eqb_spec v u) as [->|Hne]; [discriminate|].
  destruct (find_index v y); [discriminate|].
  intros _ [H|H]; [congruence | exact (IH eq_refl H)].
Qed.

Lemma find_index_In (v : Z) (y : list Z) :
  In v y -> exists j, find_index v y = Some j /\ j < List.length y.
Proof.
  induction y as [|u y IH]; [intros []|]; intros Hin; cbn [find_index].
  destruct (Z.eqb_spec v u) as [->|Hne].
  - exists 0; simpl; split; [reflexivity | lia].
  - destruct Hin as [->|Hin]; [congruence|].
    destruct (IH Hin) as [j [-> Hj]]; exists (S j); simpl; split;
      [reflexivity | lia].
Qed.

Lemma find_index_app_l (v : Z) (x z : list Z) (i : nat) :
  find_index v x = Some i -> find_index v (x ++ z) = Some i.
Proof.
  revert i; induction x as [|u x IH]; intros i; cbn [find_index app];
    [discriminate|].
  destruct (v =? u)%Z; [auto|].
  destruct (find_index v x) as [k|]; [|discriminate].
  intros [= <-]; rewrite (IH k eq_refl); reflexivity.
Qed.

Lemma find_index_app_r (v : Z) (x : list Z) :
  ~ In v x -> find_index v (x ++ [v]) = Some (List.length x).
Proof.
  induction x as [|u x IH]; intros Hn; cbn [find_index app].
  - rewrite Z.eqb_refl; reflexivity.
  - destruct (Z.eqb_spec v u) as [->|_]; [elim Hn; left; reflexivity|].
    rewrite IH; [reflexivity | intros H; apply Hn; right; exact H].
Qed.

Lemma unique_inv_nil : unique_inv [] [] [].
Proof.
  repeat split; try constructor; auto.
  intros [|j1] j2 u v _ H; discriminate H.
Qed.

Lemma unique_inv_step (x y : list Z) (idx : list nat) (w : Z) :
  unique_inv x y idx ->
  unique_inv (x ++ [w]) (fst (unique_step (y, idx) w))
             (snd (unique_step (y, idx) w)).
Proof.
  intros (Hnd & Hin & Hidx & Hord); unfold unique_step.
  destruct (find_index w y) as [j|] eqn:Hw; cbn [fst snd].
  - apply find_index_Some in Hw.
    repeat split.
    + exact Hnd.
    + intros H; apply in_or_app; left; apply Hin; exact H.
    + intros H; apply in_app_or in H; destruct H as [H|[<-|[]]].
      * apply Hin; exact H.
      * eapply nth_error_In; exact Hw.
    + apply Forall2_app; [exact Hidx | repeat constructor; exact Hw].
    + intros j1 j2 u v Hlt Hu Hv.
      destruct (Hord j1 j2 u v Hlt Hu Hv) as (i1 & i2 & H1 & H2 & Hi).
      exists i1, i2; repeat split; auto using find_index_app_l.
  - apply find_index_None in Hw.
    assert (Hwx : ~ In w x) by (intros H; apply Hw, Hin; exact H).
    repeat split.
    + apply NoDup_app; [exact Hnd | repeat constructor; intros [] |].
      intros a Ha [<-|[]]; exact (Hw Ha).
    + intros H; apply in_app_or in H; apply in_or_app.
      destruct H as [H|H]; [left; apply Hin; exact H | right; exact H].
    + intros H; apply in_app_or in H; apply in_or_app.
      destruct H as [H|H]; [left; apply Hin; exact H | right; exact H].
    + apply Forall2_app.
      * eapply Forall2_impl; [|exact Hidx]; cbn beta.
        intros a k Hk; rewrite nth_error_app1; [exact Hk|].
        apply nth_error_Some; congruence.
      * repeat constructor.
        rewrite nth_error_app2, Nat.sub_diag; [reflexivity | lia].
    + intros j1 j2 u v Hlt Hu Hv.
      destruct (Nat.lt_ge_cases j2 (List.length y)) as [Hj2|Hj2].
      * rewrite nth_error_app1 in Hu, Hv by lia.
        destruct (Hord j1 j2 u v Hlt Hu Hv) as (i1 & i2 & H1 & H2 & Hi).
        exists i1, i2; repeat split; auto using find_index_app_l.
      * assert (Hlen : j2 < List.length (y ++ [w]))
          by (apply nth_error_Some; congruence).
        rewrite length_app in Hlen; cbn [List.length] in Hlen.
        assert (j2 = List.length y) by lia; subst j2.
        rewrite nth_error_app2, Nat.sub_diag in Hv by lia.
        injection Hv as <-.
        rewrite nth_error_app1 in Hu by lia.
        apply nth_error_In, Hin, find_index_In in Hu.
        destruct Hu as (i1 & H1 & Hi1).
        exists i1, (List.length x); repeat split;
          auto using find_index_app_l, find_index_app_r.
Qed.

Lemma unique_inv_fold (x : list Z) :
  unique_inv x (fst (fold_left unique_step x ([], [])))
             (snd (fold_left unique_step x ([], []))).
Proof.
  induction x as [|w x IH] using rev_ind.
  - exact unique_inv_nil.
  - rewrite fold_left_app; cbn [fold_left].
    destruct (fold_left unique_step x ([], [])) as [y idx].
    apply unique_inv_step; exact IH.
Qed.

(** The count of index [j] among the indices is the count of the value
    at place [j] among the values. *)
Lemma count_index (x y : list Z) (idx : list nat) (j : nat) (u : Z) :
  NoDup y ->
  Forall2 (fun v k => nth_error y k = Some v) x idx ->
  nth_error y j = Some u ->
  count_occ Nat.eq_dec idx j = count_occ Z.eq_dec x u.
Proof.
  intros Hnd Hidx Hj; induction Hidx as [|v k x idx Hk _ IH];
    [reflexivity|].
  cbn [count_occ].
  destruct (Nat.eq_dec k j) as [->|Hkj], (Z.eq_dec v u) as [->|Hvu];
    try (rewrite IH; reflexivity).
  - congruence.
  - elim Hkj; rewrite NoDup_nth_error in Hnd; apply Hnd.
    + apply nth_error_Some; congruence.
    + congruence.
Qed.

Lemma unique_with_counts_spec (x : list Z) :
  exists y idx,
    unique_with_counts x
    = (y, idx,
       map (fun j => count_occ Nat.eq_dec idx j) (seq 0 (List.length y)))
    /\ unique_inv x y idx.
Proof.
  unfold unique_with_counts; pose proof (unique_inv_fold x) as H.
  destruct (fold_left unique_step x ([], [])) as [y idx].
  exists y, idx; split; [reflexivity | exact H].
Qed.
End Unique.

(** ** [argmax] *)

Section Argmax.
Local Open Scope nat_scope.

Lemma nth_error_snoc (pre : list nat) (c : nat) (j : nat) (c' : nat) :
  nth_error (pre ++ [c]) j = Some c' ->
  (j < List.length pre /\ nth_error pre j = Some c')
  \/ (j = List.length pre /\ c' = c).
Proof.
  intros H; destruct (Nat.lt_ge_cases j (List.length pre)) as [Hj|Hj].
  - left; rewrite nth_error_app1 in H by exact Hj; auto.
  - right; rewrite nth_error_app2 in H by exact Hj.
    destruct (j - List.length pre) as [|k] eqn:Hk; cbn in H.
    + split; [lia | congruence].
    + destruct k; discriminate H.
Qed.

Lemma argmax_from_spec (l pre : list nat) (bi b : nat) :
  nth_error pre bi = Some b ->
  (forall j c, nth_error pre j = Some c -> c <= b) ->
  (forall j c, j < bi -> nth_error pre j = Some c -> c < b) ->
  exists c,
    nth_error (pre ++ l) (argmax_from bi b (List.length pre) l) = Some c
    /\ (forall j c', nth_error (pre ++ l) j = Some c' -> c' <= c)
    /\ (forall j c',
          j < argmax_from bi b (List.length pre) l ->
          nth_error (pre ++ l) j = Some c' -> c' < c).
Proof.
  revert pre bi b; induction l as [|c l IH]; intros pre bi b Hb Hmax Hfirst.
  - cbn [argmax_from]; rewrite app_nil_r; exists b; auto.
  - assert (Hbi : bi < List.length pre)
      by (apply nth_error_Some; congruence).
    cbn [argmax_from].
    replace (pre ++ c :: l) with ((pre ++ [c]) ++ l)
      by (rewrite <- app_assoc; reflexivity).
    replace (S (List.length pre)) with (List.length (pre ++ [c]))
      by (rewrite length_app; cbn; lia).
    destruct (Nat.ltb_spec b c) as [Hlt|Hge]; apply IH.
    + rewrite nth_error_app2, Nat.sub_diag; [reflexivity | lia].
    + intros j c' H; apply nth_error_snoc in H.
      destruct H as [[_ H]|[_ ->]]; [apply Hmax in H; lia | lia].
    + intros j c' Hj H; apply nth_error_snoc in H.
      destruct H as [[_ H]|[-> _]]; [apply Hmax in H; lia | lia].
    + rewrite nth_error_app1 by exact Hbi; exact Hb.
    + intros j c' H; apply nth_error_snoc in H.
      destruct H as [[_ H]|[_ ->]]; [eapply Hmax; exact H | exact Hge].
    + intros j c' Hj H; apply nth_error_snoc in H.
      destruct H as [[_ H]|[-> _]]; [eapply Hfirst; eassumption | lia].
Qed.

(** [argmax] returns the least index that holds the largest value. *)
Lemma argmax_spec (l : list nat) :
  l <> [] ->
  exists m c,
    argmax l = Some m /\ nth_error l m = Some c
    /\ (forall j c', nth_error l j = Some c' -> c' <= c)
    /\ (forall j c', j < m -> nth_error l j = Some c' -> c' < c).
Proof.
  destruct l as [|c0 l]; [congruence|]; intros _.
  destruct (argmax_from_spec l [c0] 0 c0) as (c & H1 & H2 & H3).
  - reflexivity.
  - intros [|[|j]] c H; cbn in H; try discriminate; injection H as <-; lia.
  - intros j c Hj; lia.
  - exists (argmax_from 0 c0 1 l), c; cbn [argmax]; auto.
Qed.

Lemma nth_error_tabulate {A : Type} (f : nat -> A) (n j : nat) :
  nth_error (map f (seq 0 n)) j = if j <? n then Some (f j) else None.
Proof.
  rewrite nth_error_map, nth_error_seq.
  destruct (j <? n); reflexivity.
Qed.
End Argmax.

(** ** Groups *)

Section Groups.
Local Open Scope nat_scope.
Variables (dev : Device) (test : string).

(** The mask of [reduce_targets_by_test] selects the group of the
    pattern held at place [m] of the unique patterns. *)
Lemma boolean_mask_group (y : list Z) (m : nat) (p : Z)
  (targets : list string) (ps : list Z) (idx : list nat) :
  NoDup y -> nth_error y m = Some p ->
  Forall2 (fun t q => match_pattern dev test t = Some q) targets ps ->
  Forall2 (fun v k => nth_error y k = Some v) ps idx ->
  boolean_mask targets (map (fun i => Nat.eqb i m) idx)
  = pattern_group dev test p targets.
Proof.
  intros Hnd Hm Hps; revert idx.
  induction Hps as [|t q targets ps Ht _ IH]; intros idx Hidx;
    inversion Hidx as [|? k ? idx' Hk Hidx']; subst; [reflexivity|].
  cbn [map boolean_mask pattern_group filter]; unfold has_pattern at 1.
  rewrite Ht, (IH idx' Hidx'); fold (pattern_group dev test p targets).
  destruct (Nat.eqb_spec k m) as [->|Hkm], (Z.eqb_spec q p) as [->|Hqp];
    try reflexivity.
  - congruence.
  - elim Hkm; rewrite NoDup_nth_error in Hnd; apply Hnd.
    + apply nth_error_Some; congruence.
    + congruence.
Qed.

Lemma pattern_group_length (targets : list string) (ps : list Z) (q : Z) :
  Forall2 (fun t q => match_pattern dev test t = Some q) targets ps ->
  List.length (pattern_group dev test q targets)
  = count_occ Z.eq_dec ps q.
Proof.
  induction 1 as [|t r targets ps Ht _ IH]; [reflexivity|].
  cbn [pattern_group filter count_occ]; unfold has_pattern at 1.
  rewrite Ht; fold (pattern_group dev test q targets).
  destruct (Z.eqb_spec r q), (Z.eq_dec r q); try congruence;
    cbn [List.length]; rewrite IH; reflexivity.
Qed.
End Groups.

(** ** Counting: a list is no longer than its distinct values times the
    largest multiplicity *)

Section Pigeonhole.
Local Open Scope nat_scope.

Lemma filter_orb_length {A : Type} (f g : A -> bool) (x : list A) :
  List.length (filter (fun v => f v || g v) x)
  <= List.length (filter f x) + List.length (filter g x).
Proof.
  induction x as [|v x IH]; cbn [filter]; [lia|].
  destruct (f v), (g v); cbn [orb List.length]; lia.
Qed.

Lemma filter_eqb_length (u : Z) (x : list Z) :
  List.length (filter (fun v => (v =? u)%Z) x) = count_occ Z.eq_dec x u.
Proof.
  induction x as [|v x IH]; cbn [filter count_occ]; [reflexivity|].
  destruct (Z.eqb_spec v u), (Z.eq_dec v u); try congruence;
    cbn [List.length]; rewrite IH; reflexivity.
Qed.

Lemma filter_true {A : Type} (f : A -> bool) (x : list A) :
  (forall v, In v x -> f v = true) -> filter f x = x.
Proof.
  induction x as [|v x IH]; intros H; cbn [filter]; [reflexivity|].
  rewrite (H v (or_introl eq_refl)), IH; [reflexivity|].
  intros w Hw; apply H; right; exact Hw.
Qed.

Lemma covered_length (x : list Z) (c : nat) (d : list Z) :
  (forall q, count_occ Z.eq_dec x q <= c) ->
  List.length (filter (fun v => existsb (Z.eqb v) d) x)
  <= List.length d * c.
Proof.
  intros Hc; induction d as [|u d IH]; cbn [existsb List.length].
  - clear Hc; induction x as [|v x IHx]; cbn [filter List.length];
      [lia | exact IHx].
  - etransitivity; [apply filter_orb_length|].
    rewrite filter_eqb_length; specialize (Hc u); lia.
Qed.

Lemma length_le_distinct (x : list Z) (c : nat) :
  (forall q, count_occ Z.eq_dec x q <= c) ->
  List.length x <= List.length (nodup Z.eq_dec x) * c.
Proof.
  intros Hc.
  rewrite <- (filter_true (fun v => existsb (Z.eqb v) (nodup Z.eq_dec x)) x)
    at 1.
  - apply covered_length; exact Hc.
  - intros v Hv; apply existsb_exists; exists v; split.
    + apply nodup_In; exact Hv.
    + apply Z.eqb_refl.
Qed.

Lemma ceil_div_le (n d r : nat) :
  d <> 0 -> n <= d * r -> (n + d - 1) / d <= r.
Proof.
  intros Hd Hn; apply Nat.lt_succ_r, Nat.Div0.div_lt_upper_bound; nia.
Qed.
End Pigeonhole.

(** ** The partition step on either kernel, once every score is read *)

Section Reduce.
Local Open Scope nat_scope.
Variables (dev : Device) (test : string).

Lemma reduce_spec (targets : list string) (ps : list Z) :
  targets <> [] ->
  map_fn (match_pattern dev test) targets = Some ps ->
  exists p y idx cnt m,
    unique_with_counts ps = (y, idx, cnt)
    /\ unique_inv ps y idx
    /\ argmax cnt = Some m
    /\ nth_error y m = Some p
    /\ (forall j u,
          j < m -> nth_error y j = Some u ->
          count_occ Z.eq_dec ps u < count_occ Z.eq_dec ps p)
    /\ In p ps
    /\ reduce_targets_by_test dev targets test
       = Some (pattern_group dev test p targets)
    /\ (forall q, count_occ Z.eq_dec ps q <= count_occ Z.eq_dec ps p)
    /\ (forall q,
          q <> p -> count_occ Z.eq_dec ps q = count_occ Z.eq_dec ps p ->
          exists i j,
            find_index p ps = Some i /\ find_index q ps = Some j /\ i < j).
Proof.
  intros Hne Hps; unfold reduce_targets_by_test.
  change (fun target => match_pattern dev test target)
    with (match_pattern dev test).
  rewrite Hps; cbn [bind].
  apply map_fn_Forall2 in Hps.
  destruct (unique_with_counts_spec ps) as (y & idx & Huniq & Hinv).
  rewrite Huniq.
  pose proof Hinv as (Hnd & Hin & Hidx & Hord).
  set (cnt := map (fun j => count_occ Nat.eq_dec idx j)
                  (seq 0 (List.length y))).
  assert (Hcnt : forall j u, nth_error y j = Some u ->
                 nth_error cnt j = Some (count_occ Z.eq_dec ps u)).
  { intros j u Hj; unfold cnt; rewrite nth_error_tabulate.
    assert (Hlt : j < List.length y) by (apply nth_error_Some; congruence).
    apply Nat.ltb_lt in Hlt; rewrite Hlt.
    f_equal; eapply count_index; eassumption. }
  assert (Hy : y <> []).
  { destruct targets as [|t targets]; [congruence|].
    inversion Hps as [|? q ? ps' _ _]; subst.
    intros ->; apply (Hin q); left; reflexivity. }
  destruct (argmax_spec cnt) as (m & c & Hm & Hc & Hmax & Hfirst).
  { unfold cnt; destruct y; [congruence | discriminate]. }
  rewrite Hm; cbn [bind].
  assert (Hmy : m < List.length y).
  { assert (H : m < List.length cnt) by (apply nth_error_Some; congruence).
    unfold cnt in H; rewrite length_map, length_seq in H; exact H. }
  destruct (nth_error y m) as [p|] eqn:Hp;
    [|apply nth_error_None in Hp; lia].
  pose proof (Hcnt m p Hp) as Hcp; rewrite Hc in Hcp; injection Hcp as ->.
  exists p, y, idx, cnt, m.
  split; [reflexivity|]. split; [exact Hinv|]. split; [exact Hm|].
  split; [exact Hp|]. split; [|repeat split].
  - intros j u Hjm Hj; eapply Hfirst; [exact Hjm | apply Hcnt; exact Hj].
  - apply Hin; eapply nth_error_In; exact Hp.
  - f_equal; eapply boolean_mask_group; eassumption.
  - intros q; destruct (in_dec Z.eq_dec q ps) as [Hq|Hq].
    + apply Hin, In_nth_error in Hq; destruct Hq as [j Hj].
      eapply Hmax, Hcnt; exact Hj.
    + apply (count_occ_not_In Z.eq_dec) in Hq; rewrite Hq; lia.
  - intros q Hqp Htie.
    assert (Hp_in : In p ps) by (apply Hin; eapply nth_error_In; exact Hp).
    assert (Hq_in : In q ps).
    { apply (count_occ_In Z.eq_dec); rewrite Htie.
      apply (count_occ_In Z.eq_dec); exact Hp_in. }
    apply Hin, In_nth_error in Hq_in; destruct Hq_in as [j Hj].
    destruct (Nat.lt_trichotomy j m) as [Hjm|[->|Hjm]].
    + pose proof (Hfirst j _ Hjm (Hcnt j q Hj)); lia.
    + congruence.
    + exact (Hord m j p q Hjm Hp Hj).
Qed.
End Reduce.

(** ** Scores of valid words on the GPU kernel *)

Lemma match_pattern_GPU_total (test target : string) :
  valid_word test -> valid_word target ->
  exists p, match_pattern GPU test target = Some p.
Proof.
  intros Ht Hg.
  destruct (match_pattern_vec_GPU test target Ht Hg) as (s & s' & _ & _ & H).
  eexists; apply match_pattern_encode; exact H.
Qed.

Lemma scores_GPU (survivors : list string) (guess : string) :
  valid_word guess -> Forall valid_word survivors ->
  exists ps, map_fn (match_pattern GPU guess) survivors = Some ps.
Proof.
  intros Hg Hs; apply map_fn_total.
  eapply Forall_impl; [|exact Hs]; cbn beta.
  intros c Hc; apply match_pattern_GPU_total; assumption.
Qed.

Section ListFacts.
Local Open Scope nat_scope.

Lemma count_occ_le_length (x : list Z) (p : Z) :
  count_occ Z.eq_dec x p <= List.length x.
Proof.
  induction x as [|v x IH]; cbn [count_occ List.length]; [lia|].
  destruct (Z.eq_dec v p); lia.
Qed.

Lemma count_occ_full (x : list Z) (p : Z) :
  count_occ Z.eq_dec x p = List.length x <-> Forall (eq p) x.
Proof.
  induction x as [|v x IH]; cbn [count_occ List.length].
  - split; [constructor | reflexivity].
  - pose proof (count_occ_le_length x p).
    destruct (Z.eq_dec v p) as [->|Hne]; split; intros H'.
    + constructor; [reflexivity | apply IH; lia].
    + inversion H'; subst; f_equal; apply IH; assumption.
    + lia.
    + inversion H'; congruence.
Qed.

Lemma Forall2_nth_error_l {A B : Type} (R : A -> B -> Prop) (l : list A)
  (l' : list B) (k : nat) (a : A) :
  Forall2 R l l' -> nth_error l k = Some a ->
  exists b, nth_error l' k = Some b /\ R a b.
Proof.
  intros H; revert k; induction H as [|x y l l' Hxy _ IH]; intros [|k];
    cbn [nth_error]; try discriminate.
  - intros [= <-]; exists y; auto.
  - apply IH.
Qed.

Lemma Forall2_nth_error_r {A B : Type} (R : A -> B -> Prop) (l : list A)
  (l' : list B) (k : nat) (b : B) :
  Forall2 R l l' -> nth_error l' k = Some b ->
  exists a, nth_error l k = Some a /\ R a b.
Proof.
  intros H; revert k; induction H as [|x y l l' Hxy _ IH]; intros [|k];
    cbn [nth_error]; try discriminate.
  - intros [= <-]; exists x; auto.
  - apply IH.
Qed.

(** [find_index] gives the first place of a value. *)
Lemma find_index_least (v : Z) (x : list Z) (i k : nat) :
  find_index v x = Some i -> nth_error x k = Some v -> i <= k.
Proof.
  revert i k; induction x as [|u x IH]; intros i k; cbn [find_index];
    [discriminate|].
  destruct (Z.eqb_spec v u) as [->|Hne].
  - intros [= <-] _; lia.
  - destruct (find_index v x) as [j|]; [|discriminate].
    intros [= <-]; destruct k as [|k]; cbn [nth_error].
    + congruence.
    + intros Hk; specialize (IH j k eq_refl Hk); lia.
Qed.
End ListFacts.

(** ** Properties of the pattern matcher *)

(** C4.  Scoring "speed" against "abide" gives the pattern [0,0,1,0,1]:
    YELLOW for the 'e' at index 2 and for the 'd' at index 4, BLACK
    elsewhere, two positions that are not BLACK.  No letter is placed, so
    the result is the same on both kernels. *)
Theorem speed_abide_pattern :
  forall dev,
    match_pattern_vec dev "speed" "abide" = Some [0; 0; 1; 0; 1]
    /\ non_black [0; 0; 1; 0; 1] = 2%nat.
Proof. intros []; split; reflexivity. Qed.

(** C5.  The encoded score of "speed" against "abide" is 90 on the code
    (1 * 3^2 + 1 * 3^4), not the 10 of the notebook's text, which reads
    the pattern as a ternary numeral with index 0 as leading digit. *)
Theorem speed_abide_encoded :
  forall dev,
    match_pattern dev "speed" "abide" = Some 90
    /\ match_pattern dev "speed" "abide" <> Some 10.
Proof. intros []; (split; [reflexivity | discriminate]). Qed.

(** C1.  Scoring "level" against "lousy" marks the letter 'l' (value 11)
    twice, GREEN at index 0 and YELLOW at index 4, although "lousy" holds
    one 'l': the sequence numbers of the target are taken over the whole
    target, the placed letters included, while those of the test word are
    taken after masking. *)
Theorem conservation_fails_level_lousy :
  match_pattern_vec GPU "level" "lousy" = Some [2; 0; 0; 0; 1]
  /\ marked 11 (letters "level") [2; 0; 0; 0; 1] = 2%nat
  /\ occurrences 11 (letters "lousy") = 1%nat.
Proof. split; [reflexivity | split; reflexivity]. Qed.

(** C9.  For two valid words the pattern has [word_length] components,
    each 0, 1 or 2 (a placed position is never also YELLOW, so no
    component is 3), and the encoded score lies in [0, 3^5). *)
Theorem pattern_well_formed (test target : string) :
  valid_word test -> valid_word target ->
  exists vec p,
    match_pattern_vec GPU test target = Some vec
    /\ List.length vec = word_length
    /\ Forall (fun x => x = 0 \/ x = 1 \/ x = 2) vec
    /\ match_pattern GPU test target = Some p
    /\ 0 <= p < 3 ^ Z.of_nat word_length.
Proof.
  intros Ht Hg.
  destruct (match_pattern_vec_GPU test target Ht Hg) as (s & s' & Hs & _ & H).
  destruct (word_letters test Ht) as (_ & Hlt & _).
  destruct (word_letters target Hg) as (_ & Hlg & _).
  pose proof (pattern_with_length _ _ s s' Hlt Hlg Hs) as Hlen.
  pose proof (pattern_with_ternary (letters test) _ s s'
                (letters_nonneg target Hg)) as Hvec.
  eexists; eexists; repeat split.
  - exact H.
  - exact Hlen.
  - exact Hvec.
  - apply match_pattern_encode; exact H.
  - apply encode_bounds; assumption.
  - apply encode_bounds; assumption.
Qed.

Lemma pattern_well_formed_witness :
  valid_word "geese" /\ valid_word "those"
  /\ exists vec p,
       match_pattern_vec GPU "geese" "those" = Some vec
       /\ List.length vec = word_length
       /\ Forall (fun x => x = 0 \/ x = 1 \/ x = 2) vec
       /\ match_pattern GPU "geese" "those" = Some p
       /\ 0 <= p < 3 ^ Z.of_nat word_length.
Proof.
  split; [reflexivity | split; [reflexivity|]].
  apply (pattern_well_formed "geese" "those"); reflexivity.
Defined.

(** ** Properties of the partition step *)

Section PartitionStep.
Local Open Scope nat_scope.

(** C3.  For a non-empty list of survivors the partition step returns
    the group of one pattern [p] met among the scores: exactly the
    survivors that score [p], in the order of the list.  No group is
    larger, so the result has at least
    ceil(|survivors| / number of distinct patterns) elements, and at
    least one. *)
Theorem reduce_postcondition (survivors : list string) (guess : string) :
  survivors <> [] -> valid_word guess -> Forall valid_word survivors ->
  exists r p ps,
    map_fn (match_pattern GPU guess) survivors = Some ps
    /\ reduce_targets_by_test GPU survivors guess = Some r
    /\ In p ps
    /\ r = filter (has_pattern GPU guess p) survivors
    /\ (forall q,
          List.length (pattern_group GPU guess q survivors)
          <= List.length r)
    /\ (List.length survivors + List.length (nodup Z.eq_dec ps) - 1)
         / List.length (nodup Z.eq_dec ps) <= List.length r
    /\ 1 <= List.length r.
Proof.
  intros Hne Hg Hs.
  destruct (scores_GPU survivors guess Hg Hs) as [ps Hps].
  destruct (reduce_spec GPU guess survivors ps Hne Hps)
    as (p & _ & _ & _ & _ & _ & _ & _ & _ & _ & Hp & Hr & Hmax & _).
  pose proof (proj1 (map_fn_Forall2 _ _ _) Hps) as HF.
  assert (Hlen : forall q,
             List.length (pattern_group GPU guess q survivors)
             = count_occ Z.eq_dec ps q)
    by (intros q; apply pattern_group_length; exact HF).
  exists (pattern_group GPU guess p survivors), p, ps.
  split; [exact Hps|]. split; [exact Hr|]. split; [exact Hp|].
  split; [reflexivity|]. split; [|split].
  - intros q; rewrite !Hlen; apply Hmax.
  - rewrite Hlen; apply ceil_div_le.
    + assert (In p (nodup Z.eq_dec ps)) by (apply nodup_In; exact Hp).
      destruct (nodup Z.eq_dec ps); [contradiction | discriminate].
    + rewrite <- (map_fn_length _ _ _ Hps).
      apply length_le_distinct; exact Hmax.
  - rewrite Hlen; apply (count_occ_In Z.eq_dec) in Hp; lia.
Qed.

(** C7.  The result of the partition step is no longer than the list
    of survivors, and as long exactly when all survivors score the same
    pattern against the guess. *)
Theorem reduce_monotone (survivors : list string) (guess : string) :
  survivors <> [] -> valid_word guess -> Forall valid_word survivors ->
  exists r,
    reduce_targets_by_test GPU survivors guess = Some r
    /\ List.length r <= List.length survivors
    /\ (List.length r = List.length survivors
        <-> exists p,
              Forall (fun c => match_pattern GPU guess c = Some p)
                     survivors).
Proof.
  intros Hne Hg Hs.
  destruct (scores_GPU survivors guess Hg Hs) as [ps Hps].
  destruct (reduce_spec GPU guess survivors ps Hne Hps)
    as (p & _ & _ & _ & _ & _ & _ & _ & _ & _ & Hp & Hr & _ & _).
  pose proof (proj1 (map_fn_Forall2 _ _ _) Hps) as HF.
  pose proof (map_fn_length _ _ _ Hps) as Hl.
  exists (pattern_group GPU guess p survivors).
  rewrite (pattern_group_length _ _ _ _ p HF), <- Hl.
  split; [exact Hr | split; [apply count_occ_le_length|]].
  rewrite count_occ_full; split.
  - intros Hall; exists p; apply Forall_forall; intros c Hc.
    apply In_nth_error in Hc; destruct Hc as [k Hk].
    destruct (Forall2_nth_error_l _ _ _ _ _ HF Hk) as (q & Hq & Hcq).
    rewrite Forall_forall in Hall.
    rewrite (Hall q (nth_error_In _ _ Hq)); exact Hcq.
  - intros [p' Hall]; rewrite Forall_forall in Hall.
    assert (Hsame : forall q, In q ps -> q = p').
    { intros q Hq; apply In_nth_error in Hq; destruct Hq as [k Hk].
      destruct (Forall2_nth_error_r _ _ _ _ _ HF Hk) as (c & Hc & Hcq).
      apply nth_error_In, Hall in Hc; congruence. }
    apply Forall_forall; intros q Hq.
    rewrite (Hsame q Hq), (Hsame p Hp); reflexivity.
Qed.

(** C10.  The partition step returns the group of a pattern [p] of
    largest cardinality, and every other pattern [q] whose group is as
    large is first met later than [p] in the scores of the survivors,
    taken in the order of the list: ties go to the pattern seen first.
    This is so because the unique patterns [y] are listed in order of
    first appearance and the index [m] that [argmax] returns is the
    least one that holds the largest count. *)
Theorem reduce_tie_first_seen (survivors : list string) (guess : string) :
  survivors <> [] -> valid_word guess -> Forall valid_word survivors ->
  exists p ps y idx cnt m,
    map_fn (match_pattern GPU guess) survivors = Some ps
    /\ reduce_targets_by_test GPU survivors guess
       = Some (pattern_group GPU guess p survivors)
    /\ (forall q,
          List.length (pattern_group GPU guess q survivors)
          <= List.length (pattern_group GPU guess p survivors))
    /\ (forall q,
          q <> p ->
          List.length (pattern_group GPU guess q survivors)
          = List.length (pattern_group GPU guess p survivors) ->
          exists i j,
            find_index p ps = Some i /\ find_index q ps = Some j
            /\ i < j)
    /\ unique_with_counts ps = (y, idx, cnt)
    /\ argmax cnt = Some m
    /\ nth_error y m = Some p
    /\ (forall j1 j2 u v,
          j1 < j2 -> nth_error y j1 = Some u -> nth_error y j2 = Some v ->
          exists i1 i2,
            find_index u ps = Some i1 /\ find_index v ps = Some i2
            /\ i1 < i2)
    /\ (forall j u,
          j < m -> nth_error y j = Some u ->
          List.length (pattern_group GPU guess u survivors)
          < List.length (pattern_group GPU guess p survivors)).
Proof.
  intros Hne Hg Hs.
  destruct (scores_GPU survivors guess Hg Hs) as [ps Hps].
  destruct (reduce_spec GPU guess survivors ps Hne Hps)
    as (p & y & idx & cnt & m & Hu & Hinv & Hm & Hy & Hleast & Hp & Hr
        & Hmax & Htie).
  pose proof (proj1 (map_fn_Forall2 _ _ _) Hps) as HF.
  destruct Hinv as (_ & _ & _ & Hord).
  exists p, ps, y, idx, cnt, m.
  split; [exact Hps | split; [exact Hr | split; [|split]]].
  - intros q; rewrite !(pattern_group_length _ _ _ _ _ HF); apply Hmax.
  - intros q Hqp; rewrite !(pattern_group_length _ _ _ _ _ HF).
    apply Htie; exact Hqp.
  - split; [exact Hu | split; [exact Hm | split; [exact Hy | split]]].
    + exact Hord.
    + intros j u Hj Hju; rewrite !(pattern_group_length _ _ _ _ _ HF).
      eapply Hleast; eassumption.
Qed.

(** C2, as the code has it.  When several groups tie for the largest
    cardinality the partition step returns the tied group that holds the
    earliest survivor: every survivor listed before the first member of
    the returned group belongs to a strictly smaller group. *)
Theorem reduce_tie_earliest_member (survivors : list string)
  (guess : string) :
  survivors <> [] -> valid_word guess -> Forall valid_word survivors ->
  exists r p i c,
    reduce_targets_by_test GPU survivors guess = Some r
    /\ r = pattern_group GPU guess p survivors
    /\ (forall q,
          List.length (pattern_group GPU guess q survivors)
          <= List.length r)
    /\ nth_error survivors i = Some c
    /\ match_pattern GPU guess c = Some p
    /\ (forall k c',
          k < i -> nth_error survivors k = Some c' ->
          exists q,
            match_pattern GPU guess c' = Some q
            /\ List.length (pattern_group GPU guess q survivors)
               < List.length r).
Proof.
  intros Hne Hg Hs.
  destruct (scores_GPU survivors guess Hg Hs) as [ps Hps].
  destruct (reduce_spec GPU guess survivors ps Hne Hps)
    as (p & _ & _ & _ & _ & _ & _ & _ & _ & _ & Hp & Hr & Hmax & Htie).
  pose proof (proj1 (map_fn_Forall2 _ _ _) Hps) as HF.
  destruct (find_index_In p ps Hp) as (i & Hi & _).
  pose proof (find_index_Some _ _ _ Hi) as Hpi.
  destruct (Forall2_nth_error_r _ _ _ _ _ HF Hpi) as (c & Hc & Hcp).
  exists (pattern_group GPU guess p survivors), p, i, c.
  split; [exact Hr | split; [reflexivity | split; [|split; [|split]]]].
  - intros q; rewrite !(pattern_group_length _ _ _ _ _ HF); apply Hmax.
  - exact Hc.
  - exact Hcp.
  - intros k c' Hk Hc'.
    destruct (Forall2_nth_error_l _ _ _ _ _ HF Hc') as (q & Hq & Hcq).
    exists q; split; [exact Hcq|].
    rewrite !(pattern_group_length _ _ _ _ _ HF).
    destruct (Z.eq_dec q p) as [->|Hqp].
    + pose proof (find_index_least _ _ _ _ Hi Hq); lia.
    + pose proof (Hmax q) as Hle.
      destruct (Nat.eq_dec (count_occ Z.eq_dec ps q)
                           (count_occ Z.eq_dec ps p)) as [Heq|Hneq];
        [|lia].
      destruct (Htie q Hqp Heq) as (i' & j & Hi' & Hj & Hlt).
      pose proof (find_index_least _ _ _ _ Hj Hq).
      rewrite Hi in Hi'; injection Hi' as <-; lia.
Qed.
End PartitionStep.

(** ** A tie between two groups, and instances on words of the vocabulary *)

(** C2, as stated, fails.  Against the guess "speed" the survivors
    "abide" and "lousy" score 90 and 1: two groups of one word each.  The
    partition step returns the group of 90, the pattern met first, not
    the group of the smaller pattern 1. *)
Lemma tie_break_not_smallest_pattern :
  map_fn (match_pattern GPU "speed") ["abide"; "lousy"]%string = Some [90; 1]
  /\ List.length (pattern_group GPU "speed" 90 ["abide"; "lousy"]%string)
     = List.length (pattern_group GPU "speed" 1 ["abide"; "lousy"]%string)
  /\ reduce_targets_by_test GPU ["abide"; "lousy"]%string "speed"
     = Some ["abide"%string]
  /\ pattern_group GPU "speed" 1 ["abide"; "lousy"]%string
     = ["lousy"%string]
  /\ (forall q,
        (List.length (pattern_group GPU "speed" q ["abide"; "lousy"]%string)
         <= 1)%nat)
  /\ 1 < 90
  /\ reduce_targets_by_test GPU ["abide"; "lousy"]%string "speed"
     <> Some (pattern_group GPU "speed" 1 ["abide"; "lousy"]%string).
Proof.
  repeat (split; [reflexivity|]); split; [|split; [lia | discriminate]].
  intros q; unfold pattern_group; cbn [filter].
  change (has_pattern GPU "speed" q "abide") with (90 =? q).
  change (has_pattern GPU "speed" q "lousy") with (1 =? q).
  destruct (Z.eqb_spec 90 q), (Z.eqb_spec 1 q); cbn [List.length]; lia.
Qed.

Lemma reduce_postcondition_witness :
  ["abide"; "lousy"; "speed"]%string <> []
  /\ valid_word "level"
  /\ Forall valid_word ["abide"; "lousy"; "speed"]%string
  /\ exists r p ps,
       map_fn (match_pattern GPU "level") ["abide"; "lousy"; "speed"]%string
       = Some ps
       /\ reduce_targets_by_test GPU ["abide"; "lousy"; "speed"]%string
            "level" = Some r
       /\ In p ps
       /\ r = filter (has_pattern GPU "level" p)
                ["abide"; "lousy"; "speed"]%string
       /\ (forall q,
             (List.length
                (pattern_group GPU "level" q
                   ["abide"; "lousy"; "speed"]%string)
              <= List.length r)%nat)
       /\ ((List.length ["abide"; "lousy"; "speed"]%string
            + List.length (nodup Z.eq_dec ps) - 1)
           / List.length (nodup Z.eq_dec ps) <= List.length r)%nat
       /\ (1 <= List.length r)%nat.
Proof.
  split; [discriminate | split; [reflexivity | split]].
  - repeat constructor.
  - apply (reduce_postcondition ["abide"; "lousy"; "speed"]%string "level").
    + discriminate.
    + reflexivity.
    + repeat constructor.
Defined.

Lemma reduce_monotone_witness :
  ["abide"; "lousy"; "speed"]%string <> []
  /\ valid_word "level"
  /\ Forall valid_word ["abide"; "lousy"; "speed"]%string
  /\ exists r,
       reduce_targets_by_test GPU ["abide"; "lousy"; "speed"]%string "level"
       = Some r
       /\ (List.length r
           <= List.length ["abide"; "lousy"; "speed"]%string)%nat
       /\ (List.length r = List.length ["abide"; "lousy"; "speed"]%string
           <-> exists p,
                 Forall (fun c => match_pattern GPU "level" c = Some p)
                        ["abide"; "lousy"; "speed"]%string).
Proof.
  split; [discriminate | split; [reflexivity | split]].
  - repeat constructor.
  - apply (reduce_monotone ["abide"; "lousy"; "speed"]%string "level").
    + discriminate.
    + reflexivity.
    + repeat constructor.
Defined.

Lemma reduce_tie_first_seen_witness :
  ["abide"; "lousy"]%string <> []
  /\ valid_word "speed"
  /\ Forall valid_word ["abide"; "lousy"]%string
  /\ exists p ps y idx cnt m,
       map_fn (match_pattern GPU "speed") ["abide"; "lousy"]%string = Some ps
       /\ reduce_targets_by_test GPU ["abide"; "lousy"]%string "speed"
          = Some (pattern_group GPU "speed" p ["abide"; "lousy"]%string)
       /\ (forall q,
             (List.length
                (pattern_group GPU "speed" q ["abide"; "lousy"]%string)
              <= List.length
                   (pattern_group GPU "speed" p ["abide"; "lousy"]%string))%nat)
       /\ (forall q,
             q <> p ->
             List.length
               (pattern_group GPU "speed" q ["abide"; "lousy"]%string)
             = List.length
                 (pattern_group GPU "speed" p ["abide"; "lousy"]%string) ->
             exists i j,
               find_index p ps = Some i /\ find_index q ps = Some j
               /\ (i < j)%nat)
       /\ unique_with_counts ps = (y, idx, cnt)
       /\ argmax cnt = Some m
       /\ nth_error y m = Some p
       /\ (forall j1 j2 u v,
             (j1 < j2)%nat ->
             nth_error y j1 = Some u -> nth_error y j2 = Some v ->
             exists i1 i2,
               find_index u ps = Some i1 /\ find_index v ps = Some i2
               /\ (i1 < i2)%nat)
       /\ (forall j u,
             (j < m)%nat -> nth_error y j = Some u ->
             (List.length
                (pattern_group GPU "speed" u ["abide"; "lousy"]%string)
              < List.length
                  (pattern_group GPU "speed" p ["abide"; "lousy"]%string))%nat).
Proof.
  split; [discriminate | split; [reflexivity | split]].
  - repeat constructor.
  - apply (reduce_tie_first_seen ["abide"; "lousy"]%string "speed").
    + discriminate.
    + reflexivity.
    + repeat constructor.
Defined.

Lemma reduce_tie_earliest_member_witness :
  ["lousy"; "abide"]%string <> []
  /\ valid_word "speed"
  /\ Forall valid_word ["lousy"; "abide"]%string
  /\ exists r p i c,
       reduce_targets_by_test GPU ["lousy"; "abide"]%string "speed" = Some r
       /\ r = pattern_group GPU "speed" p ["lousy"; "abide"]%string
       /\ (forall q,
             (List.length
                (pattern_group GPU "speed" q ["lousy"; "abide"]%string)
              <= List.length r)%nat)
       /\ nth_error ["lousy"; "abide"]%string i = Some c
       /\ match_pattern GPU "speed" c = Some p
       /\ (forall k c',
             (k < i)%nat ->
             nth_error ["lousy"; "abide"]%string k = Some c' ->
             exists q,
               match_pattern GPU "speed" c' = Some q
               /\ (List.length
                     (pattern_group GPU "speed" q ["lousy"; "abide"]%string)
                   < List.length r)%nat).
Proof.
  split; [discriminate | split; [reflexivity | split]].
  - repeat constructor.
  - apply (reduce_tie_earliest_member ["lousy"; "abide"]%string "speed").
    + discriminate.
    + reflexivity.
    + repeat constructor.
Defined.

(** ** The counter and the sequence numbers of [append_sequence_no] *)

Section SequenceNumbers.
Local Open Scope nat_scope.

Lemma zip_with_map_same {A B C D : Type} (f : B -> C -> D) (g : A -> B)
  (h : A -> C) (l : list A) :
  zip_with f (map g l) (map h l) = map (fun a => f (g a) (h a)) l.
Proof. induction l as [|a l IH]; cbn [map zip_with]; congruence. Qed.

Lemma zeros_row_count : zeros 26 = row_count [].
Proof. reflexivity. Qed.

(** Adding the one-hot vector of [x] to a row counts [x] once more. *)
Lemma step_row_count (pre : list Z) (x : Z) :
  zip_with Z.add (row_count pre) (one_hot x 26) = row_count (x :: pre).
Proof.
  unfold row_count, one_hot, range; rewrite map_map, zip_with_map_same.
  apply map_ext; intros c; cbn [count_occ].
  destruct (Z.eq_dec x (Z.of_nat c)) as [->|Hne].
  - rewrite Z.eqb_refl; lia.
  - destruct (Z.eqb_spec (Z.of_nat c) x); [congruence | lia].
Qed.

Lemma nth_error_row_count (pre : list Z) (c : Z) :
  (0 <= c)%Z ->
  nth_error (row_count pre) (Z.to_nat c)
  = if (c <? 26)%Z then Some (Z.of_nat (count_occ Z.eq_dec pre c))
    else None.
Proof.
  intros Hc; unfold row_count; rewrite nth_error_map, nth_error_seq.
  destruct (Z.ltb_spec c 26) as [Hlt|Hge].
  - destruct (Nat.ltb_spec (Z.to_nat c) 26) as [_|H]; [|lia].
    cbn [option_map Nat.add]; rewrite Z2Nat.id by exact Hc; reflexivity.
  - destruct (Nat.ltb_spec (Z.to_nat c) 26) as [H|_]; [lia | reflexivity].
Qed.

(** The lookup at row [length rows], column [x], when that row counts
    the letters up to and including [x]. *)
Lemma gather_one_row (dev : Device) (rows rest : list (list Z))
  (pre : list Z) (x : Z) :
  gather_one dev (rows ++ row_count (x :: pre) :: rest)
             (Z.of_nat (List.length rows), x)
  = sequence_no_after dev pre x.
Proof.
  unfold gather_one, sequence_no_after, in_alphabet.
  destruct (Z.leb_spec 0 (Z.of_nat (List.length rows))) as [_|H]; [|lia].
  rewrite Nat2Z.id, nth_error_app2, Nat.sub_diag by lia.
  cbn [nth_error bind andb].
  destruct (Z.leb_spec 0 x) as [Hx|Hx]; cbn [andb].
  - rewrite nth_error_row_count by exact Hx.
    destruct (x <? 26)%Z; [|reflexivity].
    cbn [count_occ]; destruct (Z.eq_dec x x); [|congruence].
    destruct dev; reflexivity.
  - reflexivity.
Qed.

Lemma gather_scan (dev : Device) (w : list Z) :
  forall (rows : list (list Z)) (pre : list Z),
    gather_nd dev
      (rows ++ scan (fun a x => zip_with Z.add a (one_hot x 26)) w
                    (row_count pre))
      (combine (map Z.of_nat (seq (List.length rows) (List.length w))) w)
    = sequence_numbers dev pre w.
Proof.
  unfold gather_nd; induction w as [|x w IH]; intros rows pre; [reflexivity|].
  cbn [scan List.length seq map combine map_fn sequence_numbers].
  rewrite step_row_count, gather_one_row.
  destruct (sequence_no_after dev pre x) as [n|]; [|reflexivity].
  cbn [bind].
  specialize (IH (rows ++ [row_count (x :: pre)]) (x :: pre)).
  rewrite <- app_assoc, length_app in IH; cbn [app List.length] in IH.
  rewrite Nat.add_1_r in IH; rewrite IH; reflexivity.
Qed.

Lemma sequence_numbers_length (dev : Device) (w : list Z) :
  forall (pre s : list Z),
    sequence_numbers dev pre w = Some s -> List.length s = List.length w.
Proof.
  induction w as [|x w IH]; intros pre s; cbn [sequence_numbers].
  - intros [= <-]; reflexivity.
  - destruct (sequence_no_after dev pre x) as [n|]; [|discriminate].
    cbn [bind].
    destruct (sequence_numbers dev (x :: pre) w) as [ns|] eqn:Hns;
      [|discriminate].
    intros [= <-]; cbn [List.length]; rewrite (IH _ _ Hns); reflexivity.
Qed.

Lemma append_sequence_no_eq (dev : Device) (word : list Z) :
  List.length word = word_length ->
  append_sequence_no dev word
  = (s <- sequence_numbers dev [] word ;; Some (combine word s)).
Proof.
  intros Hlen; unfold append_sequence_no, stack_transpose.
  rewrite range_length, <- Hlen, Nat.eqb_refl; cbn [bind].
  unfold range; rewrite zeros_row_count.
  pose proof (gather_scan dev word [] []) as H.
  cbn [app List.length] in H; rewrite H.
  destruct (sequence_numbers dev [] word) as [s|] eqn:Hs; [|reflexivity].
  cbn [bind]; rewrite (sequence_numbers_length _ _ _ _ Hs), Nat.eqb_refl.
  reflexivity.
Qed.

Lemma sequence_numbers_GPU (pre w : list Z) :
  sequence_numbers GPU pre w = Some (sequenced pre w).
Proof.
  revert pre; induction w as [|x w IH]; intros pre; [reflexivity|].
  cbn [sequence_numbers sequenced]; unfold sequence_no_after.
  rewrite IH; destruct (in_alphabet x); reflexivity.
Qed.

Lemma sequence_numbers_CPU (pre w : list Z) :
  sequence_numbers CPU pre w
  = if forallb in_alphabet w then Some (sequenced pre w) else None.
Proof.
  revert pre; induction w as [|x w IH]; intros pre; [reflexivity|].
  cbn [sequence_numbers sequenced forallb]; unfold sequence_no_after.
  rewrite IH; destruct (in_alphabet x); [|reflexivity].
  destruct (forallb in_alphabet w); reflexivity.
Qed.

Lemma sequenced_length (pre w : list Z) :
  List.length (sequenced pre w) = List.length w.
Proof.
  revert pre; induction w as [|x w IH]; intros pre; cbn; congruence.
Qed.

Lemma nth_error_sequenced (w : list Z) :
  forall (pre : list Z) (i : nat) (c : Z),
    nth_error w i = Some c ->
    nth_error (sequenced pre w) i
    = Some (if in_alphabet c
            then Z.of_nat (count_occ Z.eq_dec pre c
                           + count_occ Z.eq_dec (firstn (S i) w) c)
            else 0%Z).
Proof.
  induction w as [|x w IH]; intros pre [|i] c; cbn [nth_error];
    try discriminate.
  - intros [= ->]; cbn [sequenced nth_error firstn count_occ].
    destruct (Z.eq_dec c c); [|congruence].
    destruct (in_alphabet c); do 2 f_equal; lia.
  - intros Hc; cbn [sequenced nth_error].
    rewrite (IH (x :: pre) i c Hc).
    change (firstn (S (S i)) (x :: w)) with (x :: firstn (S i) w).
    cbn [count_occ]; destruct (in_alphabet c), (Z.eq_dec x c);
      do 2 f_equal; lia.
Qed.

Lemma nth_error_combine {A B : Type} (l : list A) (l' : list B) (i : nat) :
  nth_error (combine l l') i
  = match nth_error l i, nth_error l' i with
    | Some a, Some b => Some (a, b)
    | _, _ => None
    end.
Proof.
  revert l' i; induction l as [|a l IH]; intros [|b l'] [|i];
    cbn [combine nth_error]; try reflexivity.
  - destruct (nth_error l i); reflexivity.
  - apply IH.
Qed.
End SequenceNumbers.

(** ** The markings as one pass over the two words *)

Section Marks.
Local Open Scope nat_scope.

(** The mask of the code, built from the green mask, is [masked]. *)
Lemma code_mask (test target : list Z) :
  zip_with (fun g t => if negb (g =? 0)%Z then (-1)%Z else t)
    (zip_with (fun a b => if (a =? b)%Z then 1%Z else 0%Z) test target) test
  = masked test target.
Proof.
  unfold masked; revert target; induction test as [|a test IH];
    intros [|b target]; cbn [zip_with]; try reflexivity.
  rewrite IH; destruct (a =? b)%Z; reflexivity.
Qed.

Lemma masked_length (test target : list Z) :
  List.length (masked test target)
  = Nat.min (List.length test) (List.length target).
Proof. apply zip_with_length. Qed.

(** A pair (letter, number) is among the sequenced letters of a target
    made of letters exactly when the number is one of the ranks of that
    letter in the target. *)
Lemma existsb_sequenced (target : list Z) :
  forall (pre : list Z) (c k : Z),
    forallb in_alphabet target = true ->
    existsb (pair_eqb (c, k)) (combine target (sequenced pre target))
    = ((Z.of_nat (count_occ Z.eq_dec pre c) <? k)%Z
       && (k <=? Z.of_nat (count_occ Z.eq_dec pre c
                           + count_occ Z.eq_dec target c))%Z).
Proof.
  induction target as [|x target IH]; intros pre c k Hall.
  - cbn [combine existsb count_occ]; rewrite Nat.add_0_r.
    destruct (Z.ltb_spec (Z.of_nat (count_occ Z.eq_dec pre c)) k),
             (Z.leb_spec k (Z.of_nat (count_occ Z.eq_dec pre c)));
      cbn [andb]; try reflexivity; lia.
  - cbn [forallb] in Hall; apply andb_true_iff in Hall.
    destruct Hall as [Hx Hall].
    cbn [sequenced combine existsb]; rewrite Hx, (IH _ _ _ Hall).
    unfold pair_eqb; cbn [fst snd count_occ].
    destruct (Z.eq_dec x c) as [->|Hne].
    + rewrite Z.eqb_refl; cbn [andb].
      destruct (Z.eqb_spec k (Z.of_nat (S (count_occ Z.eq_dec pre c)))),
               (Z.ltb_spec (Z.of_nat (S (count_occ Z.eq_dec pre c))) k),
               (Z.ltb_spec (Z.of_nat (count_occ Z.eq_dec pre c)) k),
               (Z.leb_spec k
                  (Z.of_nat (S (count_occ Z.eq_dec pre c)
                             + count_occ Z.eq_dec target c))),
               (Z.leb_spec k
                  (Z.of_nat (count_occ Z.eq_dec pre c
                             + S (count_occ Z.eq_dec target c))));
        cbn [andb orb]; try reflexivity; lia.
    + destruct (Z.eqb_spec c x); [congruence|]; reflexivity.
Qed.

Section Pass.
Variable whole : list Z.
Hypothesis whole_letters : forallb in_alphabet whole = true.

(** The tensor expression of [match_pattern_vec], read with the sequence
    numbers of the GPU kernel, is the pass [marks]. *)
Lemma pattern_pass (test : list Z) :
  forall (target pre : list Z),
    forallb in_alphabet test = true ->
    zip_with (fun g y => (2 * g + 1 * y)%Z)
      (zip_with (fun a b => if (a =? b)%Z then 1%Z else 0%Z) test target)
      (map (fun t =>
              if existsb (pair_eqb t) (combine whole (sequenced [] whole))
              then 1%Z else 0%Z)
         (combine (masked test target)
                  (sequenced pre (masked test target))))
    = marks pre test target whole.
Proof.
  unfold masked; induction test as [|a test IH]; intros [|b target] pre Hall;
    cbn [zip_with sequenced combine map marks]; try reflexivity.
  cbn [forallb] in Hall; apply andb_true_iff in Hall.
  destruct Hall as [Ha Hall].
  rewrite (IH target _ Hall), (existsb_sequenced whole [] _ _ whole_letters).
  f_equal; cbn [count_occ Nat.add].
  destruct (a =? b)%Z.
  - reflexivity.
  - rewrite Ha.
    destruct (Z.ltb_spec (Z.of_nat 0) (Z.of_nat (S (count_occ Z.eq_dec pre a))))
      as [_|H]; [|lia].
    cbn [andb].
    destruct (Z.leb_spec (Z.of_nat (S (count_occ Z.eq_dec pre a)))
                (Z.of_nat (count_occ Z.eq_dec whole a))),
             (Nat.leb_spec (S (count_occ Z.eq_dec pre a))
                (count_occ Z.eq_dec whole a)); try reflexivity; lia.
Qed.
End Pass.

Lemma marks_length (pre test target whole : list Z) :
  List.length (marks pre test target whole)
  = Nat.min (List.length test) (List.length target).
Proof.
  revert pre target; induction test as [|a test IH]; intros pre [|b target];
    cbn [marks List.length Nat.min]; auto.
Qed.

Lemma nth_error_marks (whole test : list Z) :
  forall (target pre : list Z) (i : nat) (a b : Z),
    nth_error test i = Some a -> nth_error target i = Some b ->
    nth_error (marks pre test target whole) i
    = Some (if (a =? b)%Z then 2%Z
            else if Nat.leb
                      (count_occ Z.eq_dec pre a
                       + count_occ Z.eq_dec
                           (firstn (S i) (masked test target)) a)
                      (count_occ Z.eq_dec whole a)
                 then 1%Z else 0%Z).
Proof.
  unfold masked; induction test as [|x test IH];
    intros [|y target] pre [|i] a b; cbn [nth_error]; try discriminate.
  - intros [= ->] [= ->]; cbn [marks nth_error zip_with firstn].
    destruct (Z.eqb_spec a b) as [_|Hne]; [reflexivity|].
    cbn [count_occ]; destruct (Z.eq_dec a a); [|congruence].
    rewrite Nat.add_1_r; reflexivity.
  - intros Ha Hb; cbn [marks nth_error].
    rewrite (IH target _ i a b Ha Hb).
    change (firstn (S (S i)) (zip_with ?f (x :: test) (y :: target)))
      with (f x y :: firstn (S i) (zip_with f test target)).
    cbn [count_occ].
    destruct (Z.eq_dec (if (x =? y)%Z then (-1)%Z else x) a);
      rewrite ?Nat.add_succ_r; reflexivity.
Qed.
End Marks.

(** ** Further properties of [append_sequence_no] *)

(** On the GPU kernel a word of [word_length] values is returned with,
    beside each value, the number of its occurrences up to and including
    its own position when it is a letter, and 0 otherwise. *)
Theorem append_sequence_no_numbers (word : list Z) :
  List.length word = word_length ->
  exists r,
    append_sequence_no GPU word = Some r
    /\ List.length r = word_length
    /\ forall i c,
         nth_error word i = Some c ->
         nth_error r i
         = Some (c, if in_alphabet c
                    then Z.of_nat
                           (count_occ Z.eq_dec (firstn (S i) word) c)
                    else 0).
Proof.
  intros Hlen; rewrite (append_sequence_no_eq GPU word Hlen).
  rewrite sequence_numbers_GPU; cbn [bind].
  eexists; split; [reflexivity | split].
  - rewrite length_combine, sequenced_length, Hlen; reflexivity.
  - intros i c Hc; rewrite nth_error_combine, Hc.
    rewrite (nth_error_sequenced word [] i c Hc); reflexivity.
Qed.

Lemma append_sequence_no_numbers_witness :
  List.length (letters "geese") = word_length
  /\ exists r,
       append_sequence_no GPU (letters "geese") = Some r
       /\ List.length r = word_length
       /\ forall i c,
            nth_error (letters "geese") i = Some c ->
            nth_error r i
            = Some (c, if in_alphabet c
                       then Z.of_nat
                              (count_occ Z.eq_dec
                                 (firstn (S i) (letters "geese")) c)
                       else 0).
Proof.
  split; [reflexivity|].
  apply (append_sequence_no_numbers (letters "geese")); reflexivity.
Defined.

(** On the CPU kernel [append_sequence_no] raises as soon as one value
    of the word is not a letter, and otherwise returns what the GPU
    kernel returns. *)
Theorem append_sequence_no_CPU (word : list Z) :
  List.length word = word_length ->
  append_sequence_no CPU word
  = if forallb in_alphabet word then append_sequence_no GPU word else None.
Proof.
  intros Hlen; rewrite !(append_sequence_no_eq _ word Hlen).
  rewrite sequence_numbers_CPU, sequence_numbers_GPU.
  destruct (forallb in_alphabet word); reflexivity.
Qed.

Lemma append_sequence_no_CPU_witness :
  List.length [-1; 4; 21; 4; 11] = word_length
  /\ append_sequence_no CPU [-1; 4; 21; 4; 11]
     = if forallb in_alphabet [-1; 4; 21; 4; 11]
       then append_sequence_no GPU [-1; 4; 21; 4; 11] else None.
Proof.
  split; [reflexivity|].
  apply (append_sequence_no_CPU [-1; 4; 21; 4; 11]); reflexivity.
Defined.

(** ** Further properties of the pattern matcher *)

Lemma unicode_decode_length (w : string) :
  List.length (unicode_decode w) = String.length w.
Proof.
  unfold unicode_decode; rewrite length_map.
  induction w as [|c w IH]; cbn; congruence.
Qed.

Lemma letters_length (w : string) :
  List.length (letters w) = String.length w.
Proof. unfold letters; rewrite length_map; apply unicode_decode_length. Qed.

Lemma valid_word_alphabet (w : string) :
  valid_word w ->
  forallb in_alphabet (letters w) = true
  /\ List.length (letters w) = word_length.
Proof.
  intros Hw; destruct (word_letters w Hw) as (_ & Hlen & Hall).
  split; [|exact Hlen].
  apply forallb_forall; intros c Hc.
  rewrite Forall_forall in Hall; specialize (Hall c Hc).
  unfold in_alphabet; apply andb_true_iff; split;
    [apply Z.leb_le | apply Z.ltb_lt]; lia.
Qed.

(** [match_pattern_vec] on two words of [word_length] characters, in
    terms of the sequence numbers. *)
Lemma match_pattern_vec_dev (dev : Device) (test target : string) :
  List.length (letters test) = word_length ->
  List.length (letters target) = word_length ->
  match_pattern_vec dev test target
  = (s <- sequence_numbers dev [] (masked (letters test) (letters target)) ;;
     s' <- sequence_numbers dev [] (letters target) ;;
     Some (pattern_with (letters test) (letters target) s s')).
Proof.
  intros Ht Hg; unfold match_pattern_vec, reshape, pattern_with.
  fold (letters test); fold (letters target).
  rewrite Ht, Hg, Nat.eqb_refl; cbn [bind].
  rewrite code_mask.
  rewrite append_sequence_no_eq
    by (rewrite masked_length, Ht, Hg; reflexivity).
  rewrite (append_sequence_no_eq dev _ Hg).
  destruct (sequence_numbers dev [] (masked (letters test) (letters target)));
    [|reflexivity].
  cbn [bind].
  destruct (sequence_numbers dev [] (letters target)); reflexivity.
Qed.

Lemma marks_of_match_pattern_vec (test target : string) :
  valid_word test -> valid_word target ->
  match_pattern_vec GPU test target
  = Some (marks [] (letters test) (letters target) (letters target)).
Proof.
  intros Ht Hg.
  destruct (valid_word_alphabet test Ht) as [Hat Hlt].
  destruct (valid_word_alphabet target Hg) as [Hag Hlg].
  rewrite (match_pattern_vec_dev GPU test target Hlt Hlg).
  rewrite !sequence_numbers_GPU; cbn [bind]; f_equal.
  unfold pattern_with; rewrite code_mask.
  apply pattern_pass; assumption.
Qed.

Lemma marks_positions (test target : list Z) (n : nat) :
  List.length test = n -> List.length target = n ->
  marks [] test target target = map (mark_at test target) (seq 0 n).
Proof.
  intros Hlt Hlg; apply nth_error_ext; intros i.
  rewrite nth_error_tabulate; unfold mark_at.
  destruct (Nat.ltb_spec i n) as [Hi|Hi].
  - destruct (nth_error test i) as [a|] eqn:Ha;
      [|apply nth_error_None in Ha; lia].
    destruct (nth_error target i) as [b|] eqn:Hb;
      [|apply nth_error_None in Hb; lia].
    rewrite (nth_error_marks _ _ _ [] i a b Ha Hb); reflexivity.
  - apply nth_error_None; rewrite marks_length, Hlt, Hlg.
    rewrite Nat.min_id; exact Hi.
Qed.

(** The tensor program computes the markings of one pass from left to
    right that keeps, for each letter, the count of its unplaced
    occurrences met so far in the test word. *)
Theorem match_pattern_vec_pass (test target : string) :
  valid_word test -> valid_word target ->
  match_pattern_vec GPU test target
  = Some (marks [] (letters test) (letters target) (letters target)).
Proof.
  intros Ht Hg.
  destruct (valid_word_alphabet test Ht) as [Hat Hlt].
  destruct (valid_word_alphabet target Hg) as [Hag Hlg].
  rewrite (match_pattern_vec_dev GPU test target Hlt Hlg).
  rewrite !sequence_numbers_GPU; cbn [bind]; f_equal.
  unfold pattern_with; rewrite code_mask.
  apply pattern_pass; assumption.
Qed.

Lemma match_pattern_vec_pass_witness :
  valid_word "geese" /\ valid_word "those"
  /\ match_pattern_vec GPU "geese" "those"
     = Some (marks [] (letters "geese") (letters "those") (letters "those")).
Proof.
  split; [reflexivity | split; [reflexivity|]].
  apply (match_pattern_vec_pass "geese" "those"); reflexivity.
Defined.

(** Position by position: GREEN where the two words agree; otherwise
    YELLOW when the number of unplaced occurrences of the letter in the
    test word up to that position is at most the number of occurrences
    of the letter in the whole target, placed ones included; otherwise
    BLACK. *)
Theorem match_pattern_vec_positions (test target : string) :
  valid_word test -> valid_word target ->
  match_pattern_vec GPU test target
  = Some (map (mark_at (letters test) (letters target))
              (seq 0 word_length)).
Proof.
  intros Ht Hg; rewrite (marks_of_match_pattern_vec test target Ht Hg).
  destruct (valid_word_alphabet test Ht) as [_ Hlt].
  destruct (valid_word_alphabet target Hg) as [_ Hlg].
  rewrite (marks_positions _ _ word_length Hlt Hlg); reflexivity.
Qed.

Lemma match_pattern_vec_positions_witness :
  valid_word "level" /\ valid_word "lousy"
  /\ match_pattern_vec GPU "level" "lousy"
     = Some (map (mark_at (letters "level") (letters "lousy"))
                 (seq 0 word_length)).
Proof.
  split; [reflexivity | split; [reflexivity|]].
  apply (match_pattern_vec_positions "level" "lousy"); reflexivity.
Defined.

Lemma match_pattern_vec_wrong_length (dev : Device) (test target : string) :
  String.length test <> word_length \/ String.length target <> word_length ->
  match_pattern_vec dev test target = None.
Proof.
  rewrite <- !letters_length; unfold match_pattern_vec, reshape.
  fold (letters test); fold (letters target).
  destruct (Nat.eqb_spec (List.length (letters test)) word_length);
    cbn [bind]; [|reflexivity].
  destruct (Nat.eqb_spec (List.length (letters target)) word_length);
    cbn [bind]; [|reflexivity].
  intros [H|H]; contradiction.
Qed.

(** On the GPU kernel [match_pattern_vec] raises on two ASCII strings
    exactly when one of them does not have [word_length] characters,
    whatever the characters are. *)
Theorem match_pattern_vec_raises_iff (test target : string) :
  is_ascii test = true -> is_ascii target = true ->
  (match_pattern_vec GPU test target = None
   <-> (String.length test <> word_length
        \/ String.length target <> word_length)).
Proof.
  intros _ _; split; [|apply match_pattern_vec_wrong_length].
  intros Hnone.
  destruct (Nat.eq_dec (String.length test) word_length) as [Ht|Ht];
    [|left; exact Ht].
  destruct (Nat.eq_dec (String.length target) word_length) as [Hg|Hg];
    [|right; exact Hg].
  rewrite <- letters_length in Ht, Hg.
  rewrite (match_pattern_vec_dev GPU test target Ht Hg) in Hnone.
  rewrite !sequence_numbers_GPU in Hnone; discriminate Hnone.
Qed.

Lemma match_pattern_vec_raises_iff_witness :
  is_ascii "SPEED" = true /\ is_ascii "bide" = true
  /\ (match_pattern_vec GPU "SPEED" "bide" = None
      <-> (String.length "SPEED" <> word_length
           \/ String.length "bide" <> word_length)).
Proof.
  split; [reflexivity | split; [reflexivity|]].
  apply (match_pattern_vec_raises_iff "SPEED" "bide"); reflexivity.
Defined.

Lemma masked_alphabet (test target : list Z) :
  forallb in_alphabet test = true ->
  forallb in_alphabet (masked test target)
  = negb (existsb (fun ab => fst ab =? snd ab) (combine test target)).
Proof.
  unfold masked; revert target; induction test as [|a test IH];
    intros [|b target] Hall; cbn [zip_with combine forallb existsb];
    try reflexivity.
  cbn [forallb] in Hall; apply andb_true_iff in Hall.
  destruct Hall as [Ha Hall]; rewrite (IH target Hall); cbn [fst snd].
  destruct (a =? b); [reflexivity|].
  rewrite Ha; reflexivity.
Qed.

(** On the CPU kernel [match_pattern_vec] raises on two valid words
    exactly when they share a letter at some position, and otherwise
    returns what the GPU kernel returns. *)
Theorem match_pattern_vec_CPU (test target : string) :
  valid_word test -> valid_word target ->
  match_pattern_vec CPU test target
  = if existsb (fun ab => fst ab =? snd ab)
               (combine (letters test) (letters target))
    then None
    else match_pattern_vec GPU test target.
Proof.
  intros Ht Hg.
  destruct (valid_word_alphabet test Ht) as [Hat Hlt].
  destruct (valid_word_alphabet target Hg) as [Hag Hlg].
  rewrite !(match_pattern_vec_dev _ test target Hlt Hlg).
  rewrite !sequence_numbers_CPU, !sequence_numbers_GPU.
  rewrite (masked_alphabet _ _ Hat), Hag.
  destruct (existsb _ (combine (letters test) (letters target)));
    reflexivity.
Qed.

Lemma match_pattern_vec_CPU_witness :
  valid_word "level" /\ valid_word "lousy"
  /\ match_pattern_vec CPU "level" "lousy"
     = if existsb (fun ab => fst ab =? snd ab)
                  (combine (letters "level") (letters "lousy"))
       then None
       else match_pattern_vec GPU "level" "lousy".
Proof.
  split; [reflexivity | split; [reflexivity|]].
  apply (match_pattern_vec_CPU "level" "lousy"); reflexivity.
Defined.

(** Whatever the two strings, a pattern returned on the CPU kernel is
    the pattern returned on the GPU kernel. *)
Lemma match_pattern_vec_kernels (test target : string) (vec : list Z) :
  match_pattern_vec CPU test target = Some vec ->
  match_pattern_vec GPU test target = Some vec.
Proof.
  destruct (Nat.eq_dec (String.length test) word_length) as [Ht|Ht];
    [|rewrite match_pattern_vec_wrong_length by (left; exact Ht);
      discriminate].
  destruct (Nat.eq_dec (String.length target) word_length) as [Hg|Hg];
    [|rewrite match_pattern_vec_wrong_length by (right; exact Hg);
      discriminate].
  rewrite <- letters_length in Ht, Hg.
  rewrite !(match_pattern_vec_dev _ test target Ht Hg).
  rewrite !sequence_numbers_CPU, !sequence_numbers_GPU.
  destruct (forallb in_alphabet (masked (letters test) (letters target)));
    [|discriminate].
  destruct (forallb in_alphabet (letters target)); [|discriminate].
  auto.
Qed.

Lemma match_pattern_CPU_GPU (test target : string) (p : Z) :
  match_pattern CPU test target = Some p ->
  match_pattern GPU test target = Some p.
Proof.
  unfold match_pattern.
  destruct (match_pattern_vec CPU test target) as [vec|] eqn:H;
    [|discriminate].
  rewrite (match_pattern_vec_kernels _ _ _ H); auto.
Qed.

Lemma map_fn_mono {A B : Type} (f g : A -> option B) (l : list A)
  (r : list B) :
  (forall x y, f x = Some y -> g x = Some y) ->
  map_fn f l = Some r -> map_fn g l = Some r.
Proof.
  intros Hfg; rewrite !map_fn_Forall2; intros H.
  eapply Forall2_impl; [|exact H]; exact Hfg.
Qed.

(** A result of the partition step on the CPU kernel is its result on
    the GPU kernel. *)
Theorem reduce_CPU_GPU (targets : list string) (test : string)
  (r : list string) :
  reduce_targets_by_test CPU targets test = Some r ->
  reduce_targets_by_test GPU targets test = Some r.
Proof.
  unfold reduce_targets_by_test.
  destruct (map_fn (fun target => match_pattern CPU test target) targets)
    as [ps|] eqn:Hps; [|discriminate].
  rewrite (map_fn_mono _ (fun target => match_pattern GPU test target)
             _ _ (match_pattern_CPU_GPU test) Hps).
  auto.
Qed.

Lemma reduce_CPU_GPU_witness :
  reduce_targets_by_test CPU ["abide"; "lousy"]%string "speed"
  = Some ["abide"%string]
  /\ reduce_targets_by_test GPU ["abide"; "lousy"]%string "speed"
     = Some ["abide"%string].
Proof.
  split; [reflexivity|].
  apply (reduce_CPU_GPU ["abide"; "lousy"]%string "speed"); reflexivity.
Defined.

(** ** Counting the markings of a letter *)

Section Counts.
Local Open Scope nat_scope.

Lemma yellow_marked_cons (v a m : Z) (test pattern : list Z) :
  yellow_marked v (a :: test) (m :: pattern)
  = (if (a =? v)%Z && (m =? 1)%Z then 1 else 0)
    + yellow_marked v test pattern.
Proof.
  unfold yellow_marked; cbn [combine filter fst snd].
  destruct ((a =? v)%Z && (m =? 1)%Z); reflexivity.
Qed.

Lemma green_marked_cons (v a m : Z) (test pattern : list Z) :
  green_marked v (a :: test) (m :: pattern)
  = (if (a =? v)%Z && (m =? 2)%Z then 1 else 0)
    + green_marked v test pattern.
Proof.
  unfold green_marked; cbn [combine filter fst snd].
  destruct ((a =? v)%Z && (m =? 2)%Z); reflexivity.
Qed.

Lemma marked_cons (v a m : Z) (test pattern : list Z) :
  marked v (a :: test) (m :: pattern)
  = (if (a =? v)%Z && negb (m =? 0)%Z then 1 else 0)
    + marked v test pattern.
Proof.
  unfold marked; cbn [combine filter fst snd].
  destruct ((a =? v)%Z && negb (m =? 0)%Z); reflexivity.
Qed.

Lemma placed_cons (v a b : Z) (test target : list Z) :
  placed v (a :: test) (b :: target)
  = (if (a =? v)%Z && (b =? v)%Z then 1 else 0) + placed v test target.
Proof.
  unfold placed; cbn [combine filter fst snd].
  destruct ((a =? v)%Z && (b =? v)%Z); reflexivity.
Qed.

Lemma masked_cons (a b : Z) (test target : list Z) :
  masked (a :: test) (b :: target)
  = (if (a =? b)%Z then (-1)%Z else a) :: masked test target.
Proof. reflexivity. Qed.

Section Letter.
Variables (whole : list Z) (v : Z).
Hypothesis letter : v <> (-1)%Z.

(** Along the pass the YELLOW markings of [v] fill what is left of the
    occurrences of [v] in the whole target. *)
Lemma yellow_marked_marks (test : list Z) :
  forall (target pre : list Z),
    yellow_marked v test (marks pre test target whole)
    + Nat.min (count_occ Z.eq_dec pre v) (count_occ Z.eq_dec whole v)
    = Nat.min (count_occ Z.eq_dec pre v
               + count_occ Z.eq_dec (masked test target) v)
              (count_occ Z.eq_dec whole v).
Proof.
  induction test as [|a test IH]; intros [|b target] pre;
    try (cbn [marks masked zip_with count_occ]; unfold yellow_marked;
         cbn [combine filter List.length]; lia).
  cbn [marks]; rewrite yellow_marked_cons, masked_cons.
  specialize (IH target ((if (a =? b)%Z then (-1)%Z else a) :: pre)).
  cbn [count_occ] in IH |- *.
  destruct (Z.eqb_spec a b) as [Hab|Hab].
  - destruct (Z.eq_dec (-1) v) as [Hv|_]; [congruence|].
    rewrite andb_false_r; lia.
  - destruct (Z.eq_dec a v) as [->|Hav].
    + rewrite Z.eqb_refl; cbn [andb].
      destruct (Nat.leb_spec (S (count_occ Z.eq_dec pre v))
                  (count_occ Z.eq_dec whole v)); cbn [Z.eqb Pos.eqb]; lia.
    + destruct (Z.eqb_spec a v); [congruence|]; cbn [andb]; lia.
Qed.

Lemma green_marked_marks (test : list Z) :
  forall (target pre : list Z),
    green_marked v test (marks pre test target whole)
    = placed v test target.
Proof.
  induction test as [|a test IH]; intros [|b target] pre;
    try reflexivity.
  cbn [marks]; rewrite green_marked_cons, placed_cons, IH.
  destruct (Z.eqb_spec a b) as [->|Hab].
  - destruct (b =? v)%Z; reflexivity.
  - destruct (Z.eqb_spec a v) as [->|_]; cbn [andb]; [|reflexivity].
    destruct (Z.eqb_spec b v); [congruence|].
    destruct (Nat.leb _ _); reflexivity.
Qed.

Lemma marked_marks (test : list Z) :
  forall (target pre : list Z),
    marked v test (marks pre test target whole)
    = green_marked v test (marks pre test target whole)
      + yellow_marked v test (marks pre test target whole).
Proof.
  induction test as [|a test IH]; intros [|b target] pre;
    try reflexivity.
  cbn [marks].
  rewrite marked_cons, green_marked_cons, yellow_marked_cons, IH.
  destruct (a =? v)%Z; cbn [andb]; [|reflexivity].
  destruct (a =? b)%Z; [reflexivity|].
  destruct (Nat.leb _ _); cbn [Z.eqb Pos.eqb negb]; lia.
Qed.
End Letter.

Lemma yellow_marked_absent (v : Z) (test pattern : list Z) :
  ~ In v test -> yellow_marked v test pattern = 0.
Proof.
  revert pattern; induction test as [|a test IH]; intros [|m pattern] Hn;
    try reflexivity.
  rewrite yellow_marked_cons, IH by (intros H; apply Hn; right; exact H).
  destruct (Z.eqb_spec a v) as [->|_]; [elim Hn; left; reflexivity|].
  reflexivity.
Qed.

Lemma alphabet_not_masked (w : list Z) :
  forallb in_alphabet w = true -> ~ In (-1)%Z w.
Proof.
  intros Hall Hin; rewrite forallb_forall in Hall.
  specialize (Hall _ Hin); discriminate Hall.
Qed.
End Counts.

(** For every letter the number of YELLOW markings is the smaller of the
    number of its unplaced occurrences in the test word and the number
    of its occurrences in the target; so the YELLOW markings of a letter
    never exceed its occurrences in the target. *)
Theorem yellow_count (test target : string) (v : Z) :
  valid_word test -> valid_word target ->
  exists vec,
    match_pattern_vec GPU test target = Some vec
    /\ yellow_marked v (letters test) vec
       = Nat.min
           (count_occ Z.eq_dec (masked (letters test) (letters target)) v)
           (occurrences v (letters target))
    /\ (yellow_marked v (letters test) vec
        <= occurrences v (letters target))%nat.
Proof.
  intros Ht Hg.
  destruct (valid_word_alphabet test Ht) as [Hat _].
  destruct (valid_word_alphabet target Hg) as [Hag _].
  eexists; split; [apply marks_of_match_pattern_vec; assumption|].
  unfold occurrences.
  assert (H : yellow_marked v (letters test)
                (marks [] (letters test) (letters target) (letters target))
              = Nat.min
                  (count_occ Z.eq_dec
                     (masked (letters test) (letters target)) v)
                  (count_occ Z.eq_dec (letters target) v)).
  { destruct (Z.eq_dec v (-1)) as [->|Hv].
    - rewrite yellow_marked_absent by (apply alphabet_not_masked; exact Hat).
      rewrite (proj1 (count_occ_not_In Z.eq_dec _ _)
                 (alphabet_not_masked _ Hag)); lia.
    - pose proof (yellow_marked_marks (letters target) v Hv (letters test)
                    (letters target) []) as H.
      cbn [count_occ] in H; lia. }
  rewrite H; split; [reflexivity | lia].
Qed.

Lemma yellow_count_witness :
  valid_word "geese" /\ valid_word "those"
  /\ exists vec,
       match_pattern_vec GPU "geese" "those" = Some vec
       /\ yellow_marked 4%Z (letters "geese") vec
          = Nat.min
              (count_occ Z.eq_dec
                 (masked (letters "geese") (letters "those")) 4%Z)
              (occurrences 4%Z (letters "those"))
       /\ (yellow_marked 4%Z (letters "geese") vec
           <= occurrences 4%Z (letters "those"))%nat.
Proof.
  split; [reflexivity | split; [reflexivity|]].
  apply (yellow_count "geese" "those" 4); reflexivity.
Defined.

(** For every letter the number of GREEN and YELLOW markings is the
    number of its placed occurrences plus the smaller of its unplaced
    occurrences in the test word and its occurrences in the whole
    target.  A letter with no placed occurrence is therefore marked at
    most as often as the target holds it. *)
Theorem marked_count (test target : string) (v : Z) :
  valid_word test -> valid_word target -> in_alphabet v = true ->
  exists vec,
    match_pattern_vec GPU test target = Some vec
    /\ marked v (letters test) vec
       = (placed v (letters test) (letters target)
          + Nat.min
              (count_occ Z.eq_dec
                 (masked (letters test) (letters target)) v)
              (occurrences v (letters target)))%nat
    /\ (placed v (letters test) (letters target) = 0%nat ->
        (marked v (letters test) vec
         <= occurrences v (letters target))%nat).
Proof.
  intros Ht Hg Hv.
  assert (Hv' : v <> -1) by (intros ->; discriminate Hv).
  eexists; split; [apply marks_of_match_pattern_vec; assumption|].
  rewrite (marked_marks _ v), (green_marked_marks _ v).
  pose proof (yellow_marked_marks (letters target) v Hv' (letters test)
                (letters target) []) as H.
  cbn [count_occ] in H; unfold occurrences; split; lia.
Qed.

Lemma marked_count_witness :
  valid_word "level" /\ valid_word "lousy" /\ in_alphabet 11 = true
  /\ exists vec,
       match_pattern_vec GPU "level" "lousy" = Some vec
       /\ marked 11%Z (letters "level") vec
          = (placed 11%Z (letters "level") (letters "lousy")
             + Nat.min
                 (count_occ Z.eq_dec
                    (masked (letters "level") (letters "lousy")) 11%Z)
                 (occurrences 11%Z (letters "lousy")))%nat
       /\ (placed 11%Z (letters "level") (letters "lousy") = 0%nat ->
           (marked 11%Z (letters "level") vec
            <= occurrences 11%Z (letters "lousy"))%nat).
Proof.
  split; [reflexivity | split; [reflexivity | split; [reflexivity|]]].
  apply (marked_count "level" "lousy" 11); reflexivity.
Defined.

(** ** Test words without repeated letters *)

Lemma count_masked_prefix (test : list Z) :
  forall (target : list Z) (i : nat) (a b : Z),
    NoDup test -> a <> -1 -> a <> b ->
    nth_error test i = Some a -> nth_error target i = Some b ->
    count_occ Z.eq_dec (firstn (S i) (masked test target)) a = 1%nat.
Proof.
  induction test as [|x test IH]; intros [|y target] [|i] a b Hnd Ha Hab;
    cbn [nth_error]; try discriminate.
  - intros [= ->] [= ->]; rewrite masked_cons; cbn [firstn count_occ].
    destruct (Z.eqb_spec a b); [congruence|].
    destruct (Z.eq_dec a a); [reflexivity | congruence].
  - intros Hi Hj; inversion Hnd as [|? ? Hx Hnd']; subst.
    rewrite masked_cons.
    change (firstn (S (S i)) (?m :: ?l)) with (m :: firstn (S i) l).
    cbn [count_occ].
    destruct (Z.eq_dec (if x =? y then -1 else x) a) as [He|_].
    + destruct (x =? y); [congruence|].
      subst x; elim Hx; eapply nth_error_In; exact Hi.
    + eapply IH; eassumption.
Qed.

(** When no letter occurs twice in the test word, a position is marked
    (GREEN or YELLOW) exactly when its letter occurs in the target. *)
Theorem no_repeated_letter_marks (test target : string) :
  valid_word test -> valid_word target -> NoDup (letters test) ->
  exists vec,
    match_pattern_vec GPU test target = Some vec
    /\ forall i a m,
         nth_error (letters test) i = Some a -> nth_error vec i = Some m ->
         (m <> 0 <-> In a (letters target)).
Proof.
  intros Ht Hg Hnd.
  destruct (valid_word_alphabet test Ht) as [Hat Hlt].
  destruct (valid_word_alphabet target Hg) as [_ Hlg].
  eexists; split; [apply marks_of_match_pattern_vec; assumption|].
  rewrite (marks_positions _ _ word_length Hlt Hlg).
  intros i a m Ha Hm.
  assert (Hi : (i < word_length)%nat)
    by (rewrite <- Hlt; apply nth_error_Some; congruence).
  rewrite nth_error_tabulate in Hm.
  apply Nat.ltb_lt in Hi; rewrite Hi in Hm; apply Nat.ltb_lt in Hi.
  injection Hm as <-; unfold mark_at; rewrite Ha.
  destruct (nth_error (letters target) i) as [b|] eqn:Hb;
    [|apply nth_error_None in Hb; lia].
  destruct (Z.eqb_spec a b) as [->|Hab].
  - split; [intros _; eapply nth_error_In; exact Hb | discriminate].
  - assert (Ha1 : a <> -1).
    { intros ->; apply (alphabet_not_masked _ Hat).
      eapply nth_error_In; exact Ha. }
    rewrite (count_masked_prefix _ _ i a b Hnd Ha1 Hab Ha Hb).
    rewrite (count_occ_In Z.eq_dec).
    destruct (Nat.leb_spec 1 (count_occ Z.eq_dec (letters target) a));
      split; try discriminate; try lia; intros; lia.
Qed.

Lemma no_repeated_letter_marks_witness :
  valid_word "lousy" /\ valid_word "those" /\ NoDup (letters "lousy")
  /\ exists vec,
       match_pattern_vec GPU "lousy" "those" = Some vec
       /\ forall i a m,
            nth_error (letters "lousy") i = Some a ->
            nth_error vec i = Some m ->
            (m <> 0 <-> In a (letters "those")).
Proof.
  assert (Hnd : NoDup (letters "lousy")).
  { repeat constructor; cbn; intros H;
      repeat (destruct H as [H|H]; [discriminate H|]); exact H. }
  split; [reflexivity | split; [reflexivity | split; [exact Hnd|]]].
  apply (no_repeated_letter_marks "lousy" "those");
    [reflexivity | reflexivity | exact Hnd].
Defined.

(** ** The encoded score *)

Lemma encode_inj (vec vec' : list Z) :
  List.length vec = word_length -> List.length vec' = word_length ->
  Forall (fun x => x = 0 \/ x = 1 \/ x = 2) vec ->
  Forall (fun x => x = 0 \/ x = 1 \/ x = 2) vec' ->
  encode vec = encode vec' -> vec = vec'.
Proof.
  intros Hl Hl' Hv Hv'.
  destruct vec as [|a [|b [|c [|d [|e [|]]]]]]; try discriminate Hl.
  destruct vec' as [|a' [|b' [|c' [|d' [|e' [|]]]]]]; try discriminate Hl'.
  assert (bound : forall x, x = 0 \/ x = 1 \/ x = 2 -> 0 <= x <= 2)
    by (intros x; lia).
  repeat match goal with
         | H : Forall _ (_ :: _) |- _ => inversion H; subst; clear H
         end.
  repeat match goal with
         | H : _ = 0 \/ _ |- _ => apply bound in H
         end.
  unfold encode; cbn; intros H.
  assert (a = a') by lia; subst a'.
  assert (b = b') by lia; subst b'.
  assert (c = c') by lia; subst c'.
  assert (d = d') by lia; subst d'.
  assert (e = e') by lia; subst e'.
  reflexivity.
Qed.

Lemma pattern_shape (test target : string) :
  valid_word test -> valid_word target ->
  exists vec,
    match_pattern_vec GPU test target = Some vec
    /\ List.length vec = word_length
    /\ Forall (fun x => x = 0 \/ x = 1 \/ x = 2) vec.
Proof.
  intros Ht Hg.
  destruct (match_pattern_vec_GPU test target Ht Hg) as (s & s' & Hs & _ & H).
  destruct (word_letters test Ht) as (_ & Hlt & _).
  destruct (word_letters target Hg) as (_ & Hlg & _).
  eexists; split; [exact H | split].
  - apply pattern_with_length; assumption.
  - apply pattern_with_ternary, letters_nonneg; exact Hg.
Qed.

(** Two scores, each of two valid words, are the same integer exactly
    when they are the same pattern: grouping by the integer is grouping
    by the pattern. *)
Theorem same_score_same_pattern (test target test' target' : string) :
  valid_word test -> valid_word target ->
  valid_word test' -> valid_word target' ->
  (match_pattern GPU test target = match_pattern GPU test' target'
   <-> match_pattern_vec GPU test target
       = match_pattern_vec GPU test' target').
Proof.
  intros Ht Hg Ht' Hg'.
  destruct (pattern_shape test target Ht Hg) as (vec & H & Hl & Hv).
  destruct (pattern_shape test' target' Ht' Hg') as (vec' & H' & Hl' & Hv').
  rewrite H, H', (match_pattern_encode _ _ _ _ H),
    (match_pattern_encode _ _ _ _ H').
  split; intros [= E]; f_equal.
  - apply encode_inj; assumption.
  - rewrite E; reflexivity.
Qed.

Lemma same_score_same_pattern_witness :
  valid_word "speed" /\ valid_word "abide"
  /\ valid_word "level" /\ valid_word "lousy"
  /\ (match_pattern GPU "speed" "abide" = match_pattern GPU "level" "lousy"
      <-> match_pattern_vec GPU "speed" "abide"
          = match_pattern_vec GPU "level" "lousy").
Proof.
  repeat (split; [reflexivity|]).
  apply (same_score_same_pattern "speed" "abide" "level" "lousy");
    reflexivity.
Defined.

Lemma map_injective {A B : Type} (f : A -> B) (l l' : list A) :
  (forall x y, f x = f y -> x = y) -> map f l = map f l' -> l = l'.
Proof.
  intros Hf; revert l'; induction l as [|x l IH]; intros [|y l'];
    cbn [map]; try discriminate; [reflexivity|].
  intros [= Hxy Hl]; f_equal; [apply Hf; exact Hxy | apply IH; exact Hl].
Qed.

Lemma letters_inj (w w' : string) : letters w = letters w' -> w = w'.
Proof.
  unfold letters, unicode_decode; intros H.
  apply map_injective in H; [|intros x y; lia].
  apply map_injective in H.
  - rewrite <- (string_of_list_ascii_of_string w),
      <- (string_of_list_ascii_of_string w'), H; reflexivity.
  - intros x y Hxy; apply N2Z.inj in Hxy.
    rewrite <- (ascii_N_embedding x), <- (ascii_N_embedding y), Hxy.
    reflexivity.
Qed.

Lemma marks_self (whole w : list Z) :
  forall pre, marks pre w w whole = repeat 2 (List.length w).
Proof.
  induction w as [|a w IH]; intros pre; [reflexivity|].
  cbn [marks List.length repeat]; rewrite Z.eqb_refl, IH; reflexivity.
Qed.

Lemma marks_all_green (whole test : list Z) :
  forall (target pre : list Z),
    List.length test = List.length target ->
    Forall (eq 2) (marks pre test target whole) -> test = target.
Proof.
  induction test as [|a test IH]; intros [|b target] pre Hlen;
    try discriminate Hlen; [reflexivity|].
  cbn [marks]; destruct (Z.eqb_spec a b) as [->|_].
  - intros H; inversion H as [|? ? Hm Hrest]; subst.
    f_equal; eapply IH; [|exact Hrest].
    cbn [List.length] in Hlen; lia.
  - destruct (Nat.leb _ _); intros H; inversion H as [|? ? Hm Hrest];
      discriminate Hm.
Qed.

Lemma match_pattern_vec_on_CPU (test target : string) :
  valid_word test -> valid_word target ->
  match_pattern_vec CPU test target
  = if existsb (fun ab => fst ab =? snd ab)
               (combine (letters test) (letters target))
    then None
    else match_pattern_vec GPU test target.
Proof.
  intros Ht Hg.
  destruct (valid_word_alphabet test Ht) as [Hat Hlt].
  destruct (valid_word_alphabet target Hg) as [Hag Hlg].
  rewrite !(match_pattern_vec_dev _ test target Hlt Hlg).
  rewrite !sequence_numbers_CPU, !sequence_numbers_GPU.
  rewrite (masked_alphabet _ _ Hat), Hag.
  destruct (existsb _ (combine (letters test) (letters target)));
    reflexivity.
Qed.

Lemma match_pattern_on_CPU (test target : string) :
  valid_word test -> valid_word target ->
  match_pattern CPU test target
  = if existsb (fun ab => fst ab =? snd ab)
               (combine (letters test) (letters target))
    then None
    else match_pattern GPU test target.
Proof.
  intros Ht Hg; unfold match_pattern.
  rewrite (match_pattern_vec_on_CPU test target Ht Hg).
  destruct (existsb _ (combine (letters test) (letters target)));
    reflexivity.
Qed.

(** A word of [word_length] letters shares every position with itself. *)
Lemma combine_self_placed (w : string) :
  valid_word w ->
  existsb (fun ab => fst ab =? snd ab) (combine (letters w) (letters w))
  = true.
Proof.
  intros Hw; destruct (valid_word_alphabet w Hw) as [_ Hlen].
  destruct (letters w) as [|a l]; [discriminate Hlen|].
  cbn [combine existsb fst snd]; rewrite Z.eqb_refl; reflexivity.
Qed.

Lemma score_of_self_GPU (w : string) :
  valid_word w -> match_pattern GPU w w = Some 242.
Proof.
  intros Hw; destruct (valid_word_alphabet w Hw) as [_ Hlen].
  rewrite (match_pattern_encode _ _ _ _
             (marks_of_match_pattern_vec w w Hw Hw)).
  rewrite marks_self, Hlen; reflexivity.
Qed.

Lemma all_green_equal_GPU (test target : string) :
  valid_word test -> valid_word target ->
  match_pattern GPU test target = Some 242 -> test = target.
Proof.
  intros Ht Hg.
  destruct (valid_word_alphabet test Ht) as [_ Hlt].
  destruct (valid_word_alphabet target Hg) as [_ Hlg].
  pose proof (marks_of_match_pattern_vec test target Ht Hg) as Hpass.
  rewrite (match_pattern_encode _ _ _ _ Hpass).
  intros [= E]; apply letters_inj.
  destruct (pattern_shape test target Ht Hg) as (vec & H & Hl & Hv).
  rewrite Hpass in H; injection H as <-.
  assert (E' : marks [] (letters test) (letters target) (letters target)
               = [2; 2; 2; 2; 2]).
  { apply encode_inj; [exact Hl | reflexivity | exact Hv | | exact E].
    repeat (constructor; [right; right; reflexivity|]); constructor. }
  eapply marks_all_green; [congruence|].
  rewrite E'; repeat constructor.
Qed.

(** On the GPU kernel the score of two valid words is 242, all GREEN,
    exactly when the test word is the target.  On either kernel a score
    of 242 is returned only for equal words; on the CPU kernel it is
    never returned, a word scored against itself raises there. *)
Theorem all_green_iff_equal (test target : string) :
  valid_word test -> valid_word target ->
  (match_pattern GPU test target = Some 242 <-> test = target)
  /\ (forall dev, match_pattern dev test target = Some 242 -> test = target)
  /\ (test = target -> match_pattern CPU test target = None)
  /\ match_pattern CPU test target <> Some 242.
Proof.
  intros Ht Hg.
  assert (HG : match_pattern GPU test target = Some 242 -> test = target)
    by (apply all_green_equal_GPU; assumption).
  assert (HC : test = target -> match_pattern CPU test target = None).
  { intros <-; rewrite (match_pattern_on_CPU test test Ht Ht).
    rewrite (combine_self_placed test Ht); reflexivity. }
  split; [|split; [|split]].
  - split; [exact HG | intros <-; apply score_of_self_GPU; exact Ht].
  - intros [] H; [apply HG, match_pattern_CPU_GPU, H | apply HG, H].
  - exact HC.
  - intros H; pose proof (HG (match_pattern_CPU_GPU _ _ _ H)) as E.
    rewrite (HC E) in H; discriminate H.
Qed.

Lemma all_green_iff_equal_witness :
  valid_word "speed" /\ valid_word "abide"
  /\ (match_pattern GPU "speed" "abide" = Some 242
      <-> "speed"%string = "abide"%string)
  /\ (forall dev,
        match_pattern dev "speed" "abide" = Some 242 ->
        "speed"%string = "abide"%string)
  /\ ("speed"%string = "abide"%string ->
      match_pattern CPU "speed" "abide" = None)
  /\ match_pattern CPU "speed" "abide" <> Some 242.
Proof.
  split; [reflexivity | split; [reflexivity|]].
  apply (all_green_iff_equal "speed" "abide"); reflexivity.
Defined.

(** ** Further properties of the partition step *)

Section PartitionMore.
Local Open Scope nat_scope.

Lemma map_fn_None {A B : Type} (fn : A -> option B) (l : list A) :
  Exists (fun x => fn x = None) l -> map_fn fn l = None.
Proof.
  induction 1 as [x l Hx|x l _ IH]; cbn [map_fn].
  - rewrite Hx; reflexivity.
  - rewrite IH; destruct (fn x); reflexivity.
Qed.

Lemma match_pattern_GPU_defined (test target : string) :
  String.length test = word_length -> String.length target = word_length ->
  exists p, match_pattern GPU test target = Some p.
Proof.
  rewrite <- !letters_length; intros Ht Hg; unfold match_pattern.
  rewrite (match_pattern_vec_dev GPU test target Ht Hg).
  rewrite !sequence_numbers_GPU; cbn [bind]; eexists; reflexivity.
Qed.

Lemma match_pattern_wrong_length (dev : Device) (test target : string) :
  String.length test <> word_length \/ String.length target <> word_length ->
  match_pattern dev test target = None.
Proof.
  intros H; unfold match_pattern.
  rewrite (match_pattern_vec_wrong_length dev test target H); reflexivity.
Qed.

Lemma reduce_Some_inv (dev : Device) (targets : list string) (test : string)
  (r : list string) :
  reduce_targets_by_test dev targets test = Some r ->
  targets <> []
  /\ exists ps, map_fn (match_pattern dev test) targets = Some ps.
Proof.
  unfold reduce_targets_by_test.
  change (fun target => match_pattern dev test target)
    with (match_pattern dev test).
  destruct targets as [|t targets]; [discriminate|].
  destruct (map_fn (match_pattern dev test) (t :: targets)) as [ps|];
    [|discriminate].
  intros _; split; [discriminate | exists ps; reflexivity].
Qed.

(** On the GPU kernel the partition step raises on ASCII strings
    exactly when there is no survivor, or when the guess or one of the
    survivors does not have [word_length] characters. *)
Theorem reduce_raises_iff (targets : list string) (test : string) :
  is_ascii test = true -> Forall (fun t => is_ascii t = true) targets ->
  (reduce_targets_by_test GPU targets test = None
   <-> (targets = []
        \/ String.length test <> word_length
        \/ Exists (fun t => String.length t <> word_length) targets)).
Proof.
  intros _ _; split.
  - intros Hnone.
    destruct targets as [|t targets]; [left; reflexivity | right].
    destruct (Nat.eq_dec (String.length test) word_length) as [Ht|Ht];
      [right | left; exact Ht].
    destruct (Forall_Exists_dec (fun t => String.length t = word_length)
                (fun t => Nat.eq_dec (String.length t) word_length)
                (t :: targets)) as [Hall|Hex]; [|exact Hex].
    destruct (map_fn_total (match_pattern GPU test) (t :: targets))
      as [ps Hps].
    { eapply Forall_impl; [|exact Hall]; cbn beta.
      intros c Hc; apply match_pattern_GPU_defined; assumption. }
    destruct (reduce_spec GPU test (t :: targets) ps)
      as (p & _ & _ & _ & _ & _ & _ & _ & _ & _ & _ & Hr & _);
      [discriminate | exact Hps | congruence].
  - intros [->|H]; [reflexivity|].
    unfold reduce_targets_by_test.
    destruct targets as [|t targets]; [reflexivity|].
    rewrite map_fn_None; [reflexivity|].
    destruct H as [Ht|Hex].
    + left; apply match_pattern_wrong_length; left; exact Ht.
    + eapply Exists_impl; [|exact Hex]; cbn beta.
      intros c Hc; apply match_pattern_wrong_length; right; exact Hc.
Qed.

Lemma reduce_raises_iff_witness :
  is_ascii "speed" = true
  /\ Forall (fun t => is_ascii t = true) ["abide"; "lose"]%string
  /\ (reduce_targets_by_test GPU ["abide"; "lose"]%string "speed" = None
      <-> (["abide"; "lose"]%string = []
           \/ String.length "speed" <> word_length
           \/ Exists (fun t => String.length t <> word_length)
                     ["abide"; "lose"]%string)).
Proof.
  split; [reflexivity | split; [repeat constructor|]].
  apply (reduce_raises_iff ["abide"; "lose"]%string "speed");
    [reflexivity | repeat constructor].
Defined.

Lemma map_fn_const {A B : Type} (fn : A -> option B) (l : list A) (b : B) :
  Forall (fun x => fn x = Some b) l ->
  map_fn fn l = Some (map (fun _ => b) l).
Proof.
  induction 1 as [|x l Hx _ IH]; cbn [map_fn map]; [reflexivity|].
  rewrite Hx, IH; reflexivity.
Qed.

Lemma has_pattern_true (dev : Device) (test : string) (p : Z) (c : string) :
  has_pattern dev test p c = true <-> match_pattern dev test c = Some p.
Proof.
  unfold has_pattern; destruct (match_pattern dev test c) as [q|].
  - destruct (Z.eqb_spec q p) as [->|Hne]; split; try reflexivity;
      try discriminate; intros [= E]; contradiction.
  - split; discriminate.
Qed.

(** Applying the partition step again with the same guess changes
    nothing: its result is a list on which it returns that same list. *)
Theorem reduce_idempotent (dev : Device) (targets : list string)
  (test : string) (r : list string) :
  reduce_targets_by_test dev targets test = Some r ->
  reduce_targets_by_test dev r test = Some r.
Proof.
  intros H; destruct (reduce_Some_inv dev targets test r H) as [Hne [ps Hps]].
  destruct (reduce_spec dev test targets ps Hne Hps)
    as (p & _ & _ & _ & _ & _ & _ & _ & _ & _ & Hp & Hr & _).
  rewrite H in Hr; injection Hr as ->.
  pose proof (proj1 (map_fn_Forall2 _ _ _) Hps) as HF.
  set (r := pattern_group dev test p targets).
  assert (Hall : Forall (fun c => match_pattern dev test c = Some p) r).
  { apply Forall_forall; intros c Hc.
    apply filter_In in Hc; apply has_pattern_true, Hc. }
  assert (Hr_ne : r <> []).
  { intros E; apply (count_occ_In Z.eq_dec) in Hp.
    rewrite <- (pattern_group_length dev test targets ps p HF) in Hp.
    fold r in Hp; rewrite E in Hp; cbn in Hp; lia. }
  destruct (reduce_spec dev test r _ Hr_ne (map_fn_const _ _ _ Hall))
    as (p' & _ & _ & _ & _ & _ & _ & _ & _ & _ & Hp' & Hr' & _).
  apply in_map_iff in Hp'; destruct Hp' as (_ & <- & _).
  rewrite Hr'; f_equal; apply filter_true.
  intros c Hc; rewrite Forall_forall in Hall.
  apply has_pattern_true, Hall, Hc.
Qed.

Lemma reduce_idempotent_witness :
  reduce_targets_by_test GPU ["lousy"; "speed"; "those"; "abide"]%string
    "fuzzy" = Some ["speed"; "those"; "abide"]%string
  /\ reduce_targets_by_test GPU ["speed"; "those"; "abide"]%string "fuzzy"
     = Some ["speed"; "those"; "abide"]%string.
Proof.
  split; [reflexivity|].
  apply (reduce_idempotent GPU ["lousy"; "speed"; "those"; "abide"]%string
           "fuzzy");
    reflexivity.
Defined.

(** When the survivors all score differently against the guess, the
    partition step returns the first survivor alone. *)
Theorem reduce_all_distinct (dev : Device) (c : string) (rest : list string)
  (test : string) (ps : list Z) :
  map_fn (match_pattern dev test) (c :: rest) = Some ps ->
  NoDup ps ->
  reduce_targets_by_test dev (c :: rest) test = Some [c].
Proof.
  intros Hps Hnd.
  destruct (reduce_spec dev test (c :: rest) ps)
    as (p & _ & _ & _ & _ & _ & _ & _ & _ & _ & Hp & Hr & _ & Htie);
    [discriminate | exact Hps |].
  pose proof (proj1 (map_fn_Forall2 _ _ _) Hps) as HF.
  pose proof (pattern_group_length dev test _ _ p HF) as Hlen.
  rewrite (proj1 (NoDup_count_occ' Z.eq_dec ps) Hnd p Hp) in Hlen.
  inversion HF as [|? q ? ps' Hq HF']; subst.
  assert (Hpq : p = q).
  { destruct (Z.eq_dec q p) as [E|Hne]; [congruence|].
    destruct (Htie q Hne) as (i & j & _ & Hj & Hlt).
    - rewrite !(proj1 (NoDup_count_occ' Z.eq_dec _) Hnd);
        [reflexivity | exact Hp | left; reflexivity].
    - cbn [find_index] in Hj; rewrite Z.eqb_refl in Hj.
      injection Hj as <-; lia. }
  subst q; rewrite Hr; f_equal.
  cbn [pattern_group filter] in Hlen |- *.
  rewrite (proj2 (has_pattern_true dev test p c) Hq) in Hlen |- *.
  cbn [List.length] in Hlen; f_equal.
  destruct (filter (has_pattern dev test p) rest); [reflexivity|].
  discriminate Hlen.
Qed.

Lemma reduce_all_distinct_witness :
  map_fn (match_pattern GPU "speed") ["abide"; "lousy"]%string
  = Some [90; 1]%Z
  /\ NoDup [90; 1]%Z
  /\ reduce_targets_by_test GPU ["abide"; "lousy"]%string "speed"
     = Some ["abide"%string].
Proof.
  assert (Hnd : NoDup [90; 1]%Z).
  { repeat constructor; cbn; intros H;
      repeat (destruct H as [H|H]; [discriminate H|]); exact H. }
  split; [reflexivity | split; [exact Hnd|]].
  apply (reduce_all_distinct GPU "abide" ["lousy"%string] "speed" [90; 1]%Z);
    [reflexivity | exact Hnd].
Defined.
End PartitionMore.

(** ** The all-BLACK pattern *)

Lemma Forall_eq_repeat {A : Type} (x : A) (l : list A) :
  Forall (eq x) l -> l = repeat x (List.length l).
Proof.
  induction 1 as [|y l Hy _ IH]; cbn [List.length repeat];
    [reflexivity | congruence].
Qed.

Lemma marks_disjoint (whole test : list Z) :
  forall (target pre : list Z),
    (forall a, In a test -> ~ In a whole) ->
    Forall (fun b => In b whole) target ->
    Forall (eq 0) (marks pre test target whole).
Proof.
  induction test as [|a test IH]; intros [|b target] pre Hdis Htarget;
    cbn [marks]; try constructor.
  - inversion Htarget as [|? ? Hb _]; subst.
    pose proof (Hdis a (or_introl eq_refl)) as Ha.
    destruct (Z.eqb_spec a b) as [->|_]; [contradiction|].
    rewrite (proj1 (count_occ_not_In Z.eq_dec whole a) Ha); reflexivity.
  - inversion Htarget; subst; apply IH; [|assumption].
    intros x Hx; apply Hdis; right; exact Hx.
Qed.

Lemma marks_all_black (whole test : list Z) :
  forall (target pre : list Z),
    (List.length test <= List.length target)%nat ->
    (forall x, In x pre -> ~ In x whole) ->
    Forall (eq 0) (marks pre test target whole) ->
    forall a, In a test -> ~ In a whole.
Proof.
  induction test as [|a test IH]; intros [|b target] pre Hlen Hpre;
    cbn [List.length] in Hlen; try lia;
    [intros _ x [] | intros _ x [] |].
  cbn [marks]; destruct (Z.eqb_spec a b) as [->|Hab].
  - intros H; inversion H as [|? ? Hm _]; discriminate Hm.
  - destruct (Nat.leb_spec (S (count_occ Z.eq_dec pre a))
                (count_occ Z.eq_dec whole a)) as [Hle|Hgt];
      intros H; inversion H as [|? ? Hm Hrest]; [discriminate Hm|]; subst.
    assert (Ha : ~ In a whole).
    { intros Hin.
      assert (Hpa : ~ In a pre) by (intros Hp; exact (Hpre a Hp Hin)).
      apply (count_occ_not_In Z.eq_dec) in Hpa.
      apply (count_occ_In Z.eq_dec) in Hin; lia. }
    intros x [<-|Hx]; [exact Ha|].
    apply (IH target (a :: pre)); [lia | | exact Hrest | exact Hx].
    intros y [<-|Hy]; [exact Ha | apply Hpre; exact Hy].
Qed.

(** The score of two valid words is 0, all BLACK, exactly when no letter
    of the test word occurs in the target. *)
Theorem all_black_iff_disjoint (test target : string) :
  valid_word test -> valid_word target ->
  (match_pattern GPU test target = Some 0
   <-> forall a, In a (letters test) -> ~ In a (letters target)).
Proof.
  intros Ht Hg.
  destruct (valid_word_alphabet test Ht) as [_ Hlt].
  destruct (valid_word_alphabet target Hg) as [_ Hlg].
  pose proof (marks_of_match_pattern_vec test target Ht Hg) as Hpass.
  destruct (pattern_shape test target Ht Hg) as (vec & H & Hl & Hv).
  rewrite Hpass in H; injection H as <-.
  rewrite (match_pattern_encode _ _ _ _ Hpass).
  split.
  - intros [= E].
    assert (E' : marks [] (letters test) (letters target) (letters target)
                 = [0; 0; 0; 0; 0]).
    { apply encode_inj; [exact Hl | reflexivity | exact Hv | | exact E].
      repeat (constructor; [left; reflexivity|]); constructor. }
    apply (marks_all_black _ _ (letters target) []); [lia | intros x [] |].
    rewrite E'; repeat constructor.
  - intros Hdis.
    rewrite (Forall_eq_repeat 0 _
               (marks_disjoint _ _ _ [] Hdis
                  (proj2 (Forall_forall _ _) (fun b Hb => Hb)))).
    rewrite Hl; reflexivity.
Qed.

Lemma all_black_iff_disjoint_witness :
  valid_word "aahed" /\ valid_word "lousy"
  /\ (match_pattern GPU "aahed" "lousy" = Some 0
      <-> forall a, In a (letters "aahed") -> ~ In a (letters "lousy")).
Proof.
  split; [reflexivity | split; [reflexivity|]].
  apply (all_black_iff_disjoint "aahed" "lousy"); reflexivity.
Defined.

(** ** A word against itself and a single survivor, on the two kernels *)

(** C6.  A word scored against itself is GREEN at every position, with
    the encoded score 3^5 - 1 = 242, on the GPU kernel of
    [tf.gather_nd]; on the CPU kernel the same call raises, for every
    valid word: the five placed letters are masked to -1 and their
    sequence numbers are looked up outside the counter. *)
Theorem self_score_kernels (w : string) :
  valid_word w ->
  match_pattern_vec GPU w w = Some [2; 2; 2; 2; 2]
  /\ match_pattern GPU w w = Some (3 ^ Z.of_nat word_length - 1)
  /\ 3 ^ Z.of_nat word_length - 1 = 242
  /\ match_pattern_vec CPU w w = None
  /\ match_pattern CPU w w = None.
Proof.
  intros Hw.
  destruct (match_pattern_vec_GPU w w Hw Hw) as (s & s' & Hs & _ & H).
  destruct (word_letters w Hw) as (_ & Hlen & _).
  rewrite (pattern_with_self _ s s' (letters_nonneg w Hw) Hlen Hs) in H.
  split; [exact H | split; [|split; [reflexivity | split]]].
  - rewrite (match_pattern_encode _ _ _ _ H); reflexivity.
  - rewrite (match_pattern_vec_on_CPU w w Hw Hw).
    rewrite (combine_self_placed w Hw); reflexivity.
  - rewrite (match_pattern_on_CPU w w Hw Hw).
    rewrite (combine_self_placed w Hw); reflexivity.
Qed.

Lemma self_score_kernels_witness :
  valid_word "speed"
  /\ match_pattern_vec GPU "speed" "speed" = Some [2; 2; 2; 2; 2]
  /\ match_pattern GPU "speed" "speed" = Some (3 ^ Z.of_nat word_length - 1)
  /\ 3 ^ Z.of_nat word_length - 1 = 242
  /\ match_pattern_vec CPU "speed" "speed" = None
  /\ match_pattern CPU "speed" "speed" = None.
Proof.
  split; [reflexivity | apply (self_score_kernels "speed"); reflexivity].
Defined.

Lemma reduce_single (dev : Device) (w guess : string) (q : Z) :
  match_pattern dev guess w = Some q ->
  reduce_targets_by_test dev [w] guess = Some [w].
Proof.
  intros Hq.
  assert (Hps : map_fn (match_pattern dev guess) [w] = Some [q])
    by (cbn [map_fn]; rewrite Hq; reflexivity).
  destruct (reduce_spec dev guess [w] [q])
    as (p & _ & _ & _ & _ & _ & _ & _ & _ & _ & Hp & Hr & _);
    [discriminate | exact Hps |].
  destruct Hp as [<-|[]]; rewrite Hr.
  cbn [pattern_group filter]; unfold has_pattern.
  rewrite Hq, Z.eqb_refl; reflexivity.
Qed.

(** C8.  On a single survivor the partition step returns that same
    single survivor for every guess on the GPU kernel of
    [tf.gather_nd]; on the CPU kernel it returns it when the guess
    shares no placed letter with the survivor and raises when it shares
    one. *)
Theorem reduce_singleton_kernels (w guess : string) :
  valid_word w -> valid_word guess ->
  reduce_targets_by_test GPU [w] guess = Some [w]
  /\ reduce_targets_by_test CPU [w] guess
     = if existsb (fun ab => fst ab =? snd ab)
                  (combine (letters guess) (letters w))
       then None
       else Some [w].
Proof.
  intros Hw Hg.
  destruct (match_pattern_GPU_total guess w Hg Hw) as [q Hq].
  split; [exact (reduce_single GPU w guess q Hq)|].
  pose proof (match_pattern_on_CPU guess w Hg Hw) as HC.
  destruct (existsb _ (combine (letters guess) (letters w))).
  - unfold reduce_targets_by_test; cbn [map_fn]; rewrite HC; reflexivity.
  - rewrite Hq in HC; exact (reduce_single CPU w guess q HC).
Qed.

Lemma reduce_singleton_kernels_witness :
  valid_word "abide" /\ valid_word "aahed"
  /\ reduce_targets_by_test GPU ["abide"%string] "aahed"
     = Some ["abide"%string]
  /\ reduce_targets_by_test CPU ["abide"%string] "aahed"
     = if existsb (fun ab => fst ab =? snd ab)
                  (combine (letters "aahed") (letters "abide"))
       then None
       else Some ["abide"%string].
Proof.
  split; [reflexivity | split; [reflexivity|]].
  apply (reduce_singleton_kernels "abide" "aahed"); reflexivity.
Defined.
